(** * Market recap generator: a shallow embedding of [market_recap_ui_2.py]

    The development follows the class [StreamlitMarketReportGenerator] and the
    pipeline part of [main].  Python values are modelled as follows.

    - [str] is [string]; every character is taken to be one [ascii] (the
      keyword tables of the program are plain ASCII).
    - [dict] is an association list in insertion order with Python's update
      rule: assigning to a key that is present keeps its position.
    - the closing prices of a pandas frame are binary64 numbers ([float]).
    - an exception is an explicit outcome of the call that may raise it.
    - the external services (price provider, news provider, language
      generation, the parser of ISO timestamps, the clock and the two
      formatting functions) are the fields of a record [Services]; a
      computation that calls them logs the calls in a trace. *)

From Stdlib Require Import String Ascii List Bool Arith ZArith Lia PrimFloat.
From Stdlib Require Import Sorting.Sorted Sorting.Permutation.
Import ListNotations.

Local Open Scope string_scope.
Local Open Scope list_scope.
Local Open Scope nat_scope.

Set Warnings "-inexact-float".

(* ================================================================== *)
(** ** Python strings *)

Module PyStr.

(** [str.lower] on the ASCII range. *)
Definition lower_char (c : ascii) : ascii :=
  let n := nat_of_ascii c in
  if (65 <=? n) && (n <=? 90) then ascii_of_nat (n + 32) else c.

Fixpoint lower (s : string) : string :=
  match s with
  | EmptyString => EmptyString
  | String c r => String (lower_char c) (lower r)
  end.

(** [str.upper] on the ASCII range. *)
Definition upper_char (c : ascii) : ascii :=
  let n := nat_of_ascii c in
  if (97 <=? n) && (n <=? 122) then ascii_of_nat (n - 32) else c.

Fixpoint upper (s : string) : string :=
  match s with
  | EmptyString => EmptyString
  | String c r => String (upper_char c) (upper r)
  end.

Definition is_alpha (c : ascii) : bool :=
  let n := nat_of_ascii c in
  ((65 <=? n) && (n <=? 90)) || ((97 <=? n) && (n <=? 122)).

(** [str.title]: the first cased character of every run of letters is put in
    upper case, the others in lower case. *)
Fixpoint title_from (prev_cased : bool) (s : string) : string :=
  match s with
  | EmptyString => EmptyString
  | String c r =>
      String (if prev_cased then lower_char c else upper_char c)
             (title_from (is_alpha c) r)
  end.

Definition title (s : string) : string := title_from false s.

(** [w in t] for two strings: [w] occurs in [t] as a contiguous run. *)
Fixpoint str_in (w t : string) : bool :=
  if String.prefix w t then true
  else match t with
       | EmptyString => false
       | String _ r => str_in w r
       end.

(** [any(word in text for word in words)] *)
Definition any_in (words : list string) (text : string) : bool :=
  existsb (fun w => str_in w text) words.

(** [sum(weight for word in words if word in text)] *)
Definition sum_if_in (weight : Z) (words : list string) (text : string) : Z :=
  fold_right (fun w acc => if str_in w text then (weight + acc)%Z else acc) 0%Z words.

(** [s[:n]] for [n >= 0]. *)
Fixpoint take (n : nat) (s : string) : string :=
  match n, s with
  | O, _ => EmptyString
  | S _, EmptyString => EmptyString
  | S m, String c r => String c (take m r)
  end.

(** The characters [str.strip] removes (ASCII range). *)
Definition is_space (c : ascii) : bool :=
  let n := nat_of_ascii c in
  ((9 <=? n) && (n <=? 13)) || ((28 <=? n) && (n <=? 32)).

Fixpoint lstrip (s : string) : string :=
  match s with
  | EmptyString => EmptyString
  | String c r => if is_space c then lstrip r else s
  end.

Fixpoint rstrip (s : string) : string :=
  match s with
  | EmptyString => EmptyString
  | String c r =>
      match rstrip r with
      | EmptyString => if is_space c then EmptyString else String c EmptyString
      | r' => String c r'
      end
  end.

Definition strip (s : string) : string := rstrip (lstrip s).

(** ["\n".join(lines)] *)
Definition newline : string := String (ascii_of_nat 10) EmptyString.

Fixpoint join_lines (lines : list string) : string :=
  match lines with
  | [] => EmptyString
  | [l] => l
  | l :: rest => (l ++ newline ++ join_lines rest)%string
  end.

(** [str(i)] for a natural number. *)
Definition digit_char (d : nat) : ascii := ascii_of_nat (48 + d).

Fixpoint nat_digits (fuel n : nat) (acc : string) : string :=
  match fuel with
  | O => acc
  | S f =>
      let acc' := String (digit_char (n mod 10)) acc in
      if n <? 10 then acc' else nat_digits f (n / 10) acc'
  end.

Definition str_of_nat (n : nat) : string := nat_digits (S n) n EmptyString.

End PyStr.

(* ================================================================== *)
(** ** Python dictionaries *)

Module PyDict.

Definition dict (V : Type) : Type := list (string * V).

Fixpoint get {V} (d : dict V) (k : string) : option V :=
  match d with
  | [] => None
  | (k', v) :: r => if String.eqb k k' then Some v else get r k
  end.

(** [d[k] = v]: a present key keeps its position, a new key goes last. *)
Fixpoint set {V} (d : dict V) (k : string) (v : V) : dict V :=
  match d with
  | [] => [(k, v)]
  | (k', v') :: r =>
      if String.eqb k k' then (k', v) :: r else (k', v') :: set r k v
  end.

Definition keys {V} (d : dict V) : list string := map fst d.

(** [k in d] *)
Definition mem {V} (d : dict V) (k : string) : bool :=
  match get d k with Some _ => true | None => false end.

(** A Python dictionary holds a key once. *)
Definition wf {V} (d : dict V) : Prop := NoDup (keys d).

End PyDict.

Import PyStr PyDict.

(* ================================================================== *)
(** ** Articles *)

(** An article is the JSON object of the news provider; the program reads the
    four fields below with [article.get], so each may be absent. *)
Record Article : Type := mkArticle {
  a_title : option string;
  a_teaser : option string;
  a_created : option string;
  a_url : option string
}.

(** [article.get(field, default)] *)
Definition get_or (field : option string) (default : string) : string :=
  match field with Some s => s | None => default end.

(** The text both the classifier and the scorer search:
    [title = article.get('title', '').lower()], the same for the teaser, and
    [text = f"{title} {teaser}"]. *)
Definition article_text (a : Article) : string :=
  (lower (get_or (a_title a) "") ++ " " ++ lower (get_or (a_teaser a) ""))%string.

(* ================================================================== *)
(** ** Theme classifier: [categorize_news_themes] *)

Definition Themes : Type := dict (list Article).

(** The dictionary literal the function starts from. *)
Definition empty_themes : Themes :=
  [("earnings", []); ("fed_policy", []); ("trade_tensions", []);
   ("tech_developments", []); ("geopolitical", []); ("market_movements", []);
   ("deals_ma", []); ("china_sea", []); ("crypto", []); ("other", [])].

(** The nine [if any(word in text for word in [...])] tests, in program
    order, each with the bucket it appends to. *)
Definition theme_rules : list (string * list string) :=
  [("earnings", ["earnings"; "revenue"; "profit"; "quarterly"; "eps"]);
   ("fed_policy", ["fed"; "federal reserve"; "interest rates"; "powell"; "monetary"]);
   ("trade_tensions", ["tariff"; "trade war"; "trade deal"; "import"; "export"]);
   ("tech_developments", ["ai"; "artificial intelligence"; "tech"; "semiconductor"; "chip"]);
   ("geopolitical", ["trump"; "election"; "government"; "policy"; "regulation"]);
   ("market_movements", ["surge"; "plunge"; "rally"; "crash"; "soar"; "tumble"]);
   ("deals_ma", ["merger"; "acquisition"; "deal"; "buyout"; "takeover"]);
   ("china_sea", ["china"; "chinese"; "asia"; "singapore"; "hong kong"]);
   ("crypto", ["bitcoin"; "crypto"; "blockchain"; "ethereum"])].

(** [themes[k].append(article)].  Every key the program appends to is in the
    literal above, so the [KeyError] branch is never taken; it leaves the
    dictionary as it is. *)
Definition append_to (themes : Themes) (k : string) (a : Article) : Themes :=
  match get themes k with
  | Some l => set themes k (l ++ [a])
  | None => themes
  end.

(** One [if any(...)]: append and raise the [categorized] flag. *)
Definition rule_step (a : Article) (text : string)
  (st : Themes * bool) (rule : string * list string) : Themes * bool :=
  if any_in (snd rule) text then (append_to (fst st) (fst rule) a, true) else st.

(** The body of the [for article in articles] loop. *)
Definition categorize_article (themes : Themes) (a : Article) : Themes :=
  let text := article_text a in
  let '(themes', categorized) :=
    fold_left (rule_step a text) theme_rules (themes, false) in
  if categorized then themes' else append_to themes' "other" a.

Definition categorize_news_themes (articles : list Article) : Themes :=
  fold_left categorize_article articles empty_themes.

(** The labels one article carries: the themes whose bucket holds it when the
    classifier is run on that article. *)
Definition article_labels (a : Article) : list string :=
  keys (filter (fun kv => match snd kv with [] => false | _ => true end)
               (categorize_news_themes [a])).

(* ================================================================== *)
(** ** Importance scorer: [_score_article_importance] *)

(** What [datetime.fromisoformat] returns: a datetime with or without an
    offset, as microseconds since the epoch (of UTC when it has an offset). *)
Inductive DateTime : Type :=
| Naive (us : Z)
| Aware (us : Z).

(** [s.replace('Z', '+00:00')] *)
Fixpoint replace_Z (s : string) : string :=
  match s with
  | EmptyString => EmptyString
  | String c r =>
      if Ascii.eqb c "Z"%char then ("+00:00" ++ replace_Z r)%string
      else String c (replace_Z r)
  end.

Definition major_companies : list string :=
  ["apple"; "microsoft"; "google"; "amazon"; "tesla"; "meta"; "nvidia"].

Definition impact_words : list string :=
  ["billion"; "million"; "record"; "historic"; "breakthrough"; "crisis"].

Definition urgent_words : list string :=
  ["breaking"; "just in"; "urgent"; "alert"].

(** Twenty-four hours in microseconds. *)
Definition day_us : Z := 86400000000.

(** The [try] block at the end of the scorer.  [now] is the instant read by
    [datetime.now().astimezone()].  The bonus is given when
    [(now - created).total_seconds() / 3600 < 24]; a string that does not
    parse ([ValueError]) and a datetime without offset ([TypeError] on the
    subtraction) both end in the bare [except: pass]. *)
Definition recency_bonus (fromisoformat : string -> option DateTime)
  (now : Z) (a : Article) : Z :=
  match fromisoformat (replace_Z (get_or (a_created a) "")) with
  | Some (Aware created_time) =>
      if (now - created_time <? day_us)%Z then 5%Z else 0%Z
  | Some (Naive _) => 0%Z
  | None => 0%Z
  end.

Definition _score_article_importance
  (fromisoformat : string -> option DateTime) (now : Z) (a : Article) : Z :=
  let text := article_text a in
  let score := 0%Z in
  let score := (score + sum_if_in 5 major_companies text)%Z in
  let score := (score + sum_if_in 3 impact_words text)%Z in
  let score := (score + sum_if_in 4 urgent_words text)%Z in
  (score + recency_bonus fromisoformat now a)%Z.

(* ================================================================== *)
(** ** Sorting and slicing *)

Section StableSort.

Context {A : Type} (lt : A -> A -> bool).

(** [list.sort(key=..., reverse=True)] and [sorted(..., reverse=True)]:
    descending by key, elements with equal keys in their original order.
    [lt x y] says that the key of [x] is below the key of [y].  An element
    is put in front of the first one whose key is not above its own. *)
Fixpoint insert_desc (x : A) (l : list A) : list A :=
  match l with
  | [] => [x]
  | y :: r => if lt x y then y :: insert_desc x r else x :: y :: r
  end.

Definition sort_desc (l : list A) : list A := fold_right insert_desc [] l.

End StableSort.

(** [l[:limit]] for any integer [limit]: a negative one counts from the end. *)
Definition slice_to {A : Type} (limit : Z) (l : list A) : list A :=
  if (limit <? 0)%Z then firstn (length l - Z.to_nat (- limit)) l
  else firstn (Z.to_nat limit) l.

(* ================================================================== *)
(** ** Extractor: [extract_key_stories] *)

Definition Scored : Type := (Article * Z)%type.

Definition score_lt (x y : Scored) : bool := (snd x <? snd y)%Z.

(** The scorer reads the clock at every call; [clock n] is the instant read
    by the call number [n] of one run of the extractor. *)
Definition Clock : Type := nat -> Z.

(** The inner loop: [scored_articles.append((article, score))]. *)
Fixpoint score_articles (fromisoformat : string -> option DateTime)
  (clock : Clock) (n : nat) (articles : list Article) : list Scored :=
  match articles with
  | [] => []
  | a :: rest =>
      (a, _score_article_importance fromisoformat (clock n) a)
        :: score_articles fromisoformat clock (S n) rest
  end.

(** [[article for article, score in scored_articles[:limit]]] after the sort. *)
Definition top_stories (limit : Z) (scored : list Scored) : list Article :=
  map fst (slice_to limit (sort_desc score_lt scored)).

(** The outer loop over [themes.items()], from the call number [n] on and
    with the dictionary [key_stories] built so far. *)
Fixpoint extract_from (fromisoformat : string -> option DateTime)
  (clock : Clock) (n : nat) (themes : Themes) (limit : Z)
  (key_stories : Themes) : Themes :=
  match themes with
  | [] => key_stories
  | (theme, articles) :: rest =>
      match articles with
      | [] => extract_from fromisoformat clock n rest limit key_stories
      | _ :: _ =>
          let scored_articles := score_articles fromisoformat clock n articles in
          extract_from fromisoformat clock (n + length articles) rest limit
            (set key_stories theme (top_stories limit scored_articles))
      end
  end.

Definition extract_key_stories (fromisoformat : string -> option DateTime)
  (clock : Clock) (themes : Themes) (limit : Z) : Themes :=
  extract_from fromisoformat clock 0 themes limit [].

(* ================================================================== *)
(** ** External services and their trace *)

(** The outcome of the body of one [try] of the aggregator up to the read of
    the [Close] column: the provider (or the column access) raised, or the
    frame came back with the closing prices below, oldest first. *)
Inductive FetchOutcome : Type :=
| Raised
| History (closes : list float).

(** A request of [get_articles_by_date_range] after [_make_benzinga_request]
    has added the token. *)
Record NewsRequest : Type := mkNewsRequest {
  nr_endpoint : string;
  nr_page_size : nat;
  nr_display_output : string;
  nr_date_from : Z;
  nr_date_to : Z;
  nr_token : string
}.

(** What [urlopen], [read] and [json.loads] give: an exception (transport or
    parsing) with its text, a JSON list of articles, or some other JSON
    value. *)
Inductive NewsOutcome : Type :=
| NewsRaised (msg : string)
| NewsList (articles : list Article)
| NewsOther.

Record ChatRequest : Type := mkChatRequest {
  cr_model : string;
  cr_system : string;
  cr_user : string;
  cr_max_tokens : nat;
  cr_temperature : float
}.

(** [chat.completions.create(...)] followed by the read of
    [choices[0].message.content]: an exception with its text, or the
    content. *)
Inductive ChatOutcome : Type :=
| ChatRaised (msg : string)
| ChatContent (content : string).

(** Dates are day numbers.  The formatting functions of the Python library
    the program relies on are part of the environment. *)
Record Services : Type := mkServices {
  yf_history : string -> Z -> Z -> FetchOutcome;
  benzinga : NewsRequest -> NewsOutcome;
  openai_chat : ChatRequest -> ChatOutcome;
  fromisoformat : string -> option DateTime;
  clock : Clock;
  strftime_long : Z -> string;
  format_signed_2f : float -> string
}.

(** What one run does outside the process. *)
Inductive Event : Type :=
| EvHistory (ticker : string) (start_day end_day : Z)
| EvNews (req : NewsRequest)
| EvChat (req : ChatRequest)
| EvStError (msg : string)
| EvErrorBox (headline : string).

(** Computations that log their events. *)
Definition IO (A : Type) : Type := (A * list Event)%type.

Definition ret {A : Type} (x : A) : IO A := (x, []).

Definition bind {A B : Type} (m : IO A) (k : A -> IO B) : IO B :=
  let '(x, t1) := m in
  let '(y, t2) := k x in
  (y, t1 ++ t2).

Definition emit (e : Event) : IO unit := (tt, [e]).

Definition result {A : Type} (m : IO A) : A := fst m.

Definition trace {A : Type} (m : IO A) : list Event := snd m.

Notation "x <- m ;; k" := (bind m (fun x => k))
  (at level 61, m at next level, right associativity).

Notation "m ;;; k" := (bind m (fun _ => k))
  (at level 61, right associativity).

(* ================================================================== *)
(** ** Market performance aggregator: [get_market_data_by_range] *)

Local Open Scope float_scope.

Definition two52 : float := 4503599627370496.

(** [numpy.rint] on binary64: the nearest integer, ties to even, the sign
    kept. *)
Definition rint (x : float) : float :=
  if PrimFloat.abs x <? two52 then
    let r := (PrimFloat.abs x + two52) - two52 in
    if get_sign x then - r else r
  else x.

(** [round(x, 2)] of a [numpy.float64]: multiply by [10**2], [rint], divide. *)
Definition round2 (x : float) : float := rint (x * 100) / 100.

(** [((end_price - start_price) / start_price) * 100] *)
Definition change_pct (start_price end_price : float) : float :=
  ((end_price - start_price) / start_price) * 100.

Local Close Scope float_scope.

(** The figures of one instrument. *)
Record Perf : Type := mkPerf {
  p_start_price : float;
  p_end_price : float;
  p_change_pct : float
}.

(** The guarded part of the [try]: [if not hist.empty and len(hist) >= 2]
    with [iloc[0]] and [iloc[-1]]. *)
Definition performance (h : FetchOutcome) : option Perf :=
  match h with
  | Raised => None
  | History closes =>
      match closes with
      | [] => None
      | start_price :: _ =>
          if 2 <=? length closes then
            let end_price := last closes start_price in
            Some (mkPerf start_price end_price (change_pct start_price end_price))
          else None
      end
  end.

Record IndexEntry : Type := mkIndexEntry {
  ie_name : string;
  ie_current_price : float;
  ie_change_pct : float;
  ie_start_price : float
}.

Record SectorEntry : Type := mkSectorEntry {
  se_name : string;
  se_change_pct : float
}.

Record StockEntry : Type := mkStockEntry {
  sk_change_pct : float;
  sk_current_price : float
}.

(** [market_data] is one flat dictionary: an entry per index ticker, then
    the keys ['sectors'] and ['stocks'] with the two group dictionaries. *)
Inductive MarketValue : Type :=
| MIndex (e : IndexEntry)
| MSectors (d : dict SectorEntry)
| MStocks (d : dict StockEntry).

Definition MarketData : Type := dict MarketValue.

Definition index_value (name : string) (p : Perf) : MarketValue :=
  MIndex (mkIndexEntry name (round2 (p_end_price p)) (round2 (p_change_pct p))
                       (round2 (p_start_price p))).

Definition sector_value (name : string) (p : Perf) : SectorEntry :=
  mkSectorEntry name (round2 (p_change_pct p)).

Definition stock_value (_ : unit) (p : Perf) : StockEntry :=
  mkStockEntry (round2 (p_change_pct p)) (round2 (p_end_price p)).

(** The configuration [_setup_market_config] stores in the object. *)
Record Config : Type := mkConfig {
  market_indices : dict string;
  sector_etfs : dict string;
  major_stocks : list string;
  sea_stocks : list string
}.

Definition _setup_market_config : Config :=
  mkConfig
    [("^GSPC", "S&P 500"); ("^DJI", "Dow Jones"); ("^IXIC", "NASDAQ");
     ("^RUT", "Russell 2000"); ("^VIX", "VIX"); ("^STOXX50E", "Euro Stoxx 50");
     ("^FTSE", "FTSE 100"); ("^GDAXI", "DAX"); ("^FCHI", "CAC 40");
     ("^HSI", "Hang Seng"); ("^N225", "Nikkei 225");
     ("000001.SS", "Shanghai Composite"); ("^STI", "Straits Times Index");
     ("EURUSD=X", "EUR/USD"); ("GBPUSD=X", "GBP/USD"); ("USDJPY=X", "USD/JPY");
     ("USDCNY=X", "USD/CNY"); ("GC=F", "Gold"); ("CL=F", "Crude Oil");
     ("^TNX", "10-Year Treasury")]
    [("XLK", "Technology"); ("XLF", "Financials"); ("XLV", "Healthcare");
     ("XLE", "Energy"); ("XLI", "Industrials"); ("XLP", "Consumer Staples");
     ("XLY", "Consumer Discretionary"); ("XLU", "Utilities");
     ("XLB", "Materials"); ("XLRE", "Real Estate");
     ("XLC", "Communication Services")]
    ["AAPL"; "MSFT"; "GOOGL"; "AMZN"; "TSLA"; "META"; "NVDA"; "JPM"; "JNJ";
     "V"; "WMT"; "UNH"; "HD"; "PG"; "MA"]
    ["BABA"; "JD"; "TCEHY"; "PDD"; "BIDU"; "GRAB"; "SEA"].

(** [stock.history(start=start_date, end=end_date + timedelta(days=1))] *)
Definition fetch_history (svc : Services) (ticker : string)
  (start_date end_date : Z) : IO FetchOutcome :=
  emit (EvHistory ticker start_date (end_date + 1)) ;;;
  ret (yf_history svc ticker start_date (end_date + 1)).

(** One of the three loops of the aggregator.  They differ in the entry they
    store ([entry]) and in the dictionary they fill; an instrument whose
    [try] raises or whose frame is too short leaves the dictionary as it
    is ([continue]). *)
Fixpoint fetch_group {X V : Type} (svc : Services) (start_date end_date : Z)
  (entry : X -> Perf -> V) (items : list (string * X)) (data : dict V)
  : IO (dict V) :=
  match items with
  | [] => ret data
  | (ticker, x) :: rest =>
      hist <- fetch_history svc ticker start_date end_date ;;
      fetch_group svc start_date end_date entry rest
        (match performance hist with
         | Some p => set data ticker (entry x p)
         | None => data
         end)
  end.

Definition get_market_data_by_range (cfg : Config) (svc : Services)
  (start_date end_date : Z) : IO MarketData :=
  market_data <- fetch_group svc start_date end_date index_value
                   (market_indices cfg) [] ;;
  sector_data <- fetch_group svc start_date end_date sector_value
                   (sector_etfs cfg) [] ;;
  let market_data := set market_data "sectors" (MSectors sector_data) in
  let all_stocks := major_stocks cfg ++ sea_stocks cfg in
  stock_data <- fetch_group svc start_date end_date stock_value
                  (map (fun t => (t, tt)) all_stocks) [] ;;
  let market_data := set market_data "stocks" (MStocks stock_data) in
  ret market_data.

(** The recorded change of an instrument, by group. *)
Definition index_change (md : MarketData) (ticker : string) : option float :=
  match get md ticker with
  | Some (MIndex e) => Some (ie_change_pct e)
  | _ => None
  end.

Definition sector_change (md : MarketData) (ticker : string) : option float :=
  match get md "sectors" with
  | Some (MSectors d) => option_map se_change_pct (get d ticker)
  | _ => None
  end.

Definition stock_change (md : MarketData) (ticker : string) : option float :=
  match get md "stocks" with
  | Some (MStocks d) => option_map sk_change_pct (get d ticker)
  | _ => None
  end.

(* ================================================================== *)
(** ** Report prompt builder *)

Definition dquote : string := String (ascii_of_nat 34) EmptyString.

(** [f"{start_date.strftime('%B %d, %Y')} to {end_date.strftime('%B %d, %Y')}"] *)
Definition date_range_text (svc : Services) (start_date end_date : Z) : string :=
  (strftime_long svc start_date ++ " to " ++ strftime_long svc end_date)%string.

(** [f"• {name}: {change:+.2f}%"] *)
Definition bullet_line (svc : Services) (name : string) (change : float) : string :=
  ("• " ++ name ++ ": " ++ format_signed_2f svc change ++ "%")%string.

Definition in_group_keys (ticker : string) : bool :=
  String.eqb ticker "sectors" || String.eqb ticker "stocks".

Definition sector_lt (x y : string * SectorEntry) : bool :=
  PrimFloat.ltb (se_change_pct (snd x)) (se_change_pct (snd y)).

Definition stock_lt (x y : string * StockEntry) : bool :=
  PrimFloat.ltb (PrimFloat.abs (sk_change_pct (snd x)))
                (PrimFloat.abs (sk_change_pct (snd y))).

(** [_create_performance_summary].  The aggregator stores an index entry
    under every key but ['sectors'] and ['stocks'] and the two group
    dictionaries under these; a dictionary of another shape (on which the
    program would raise) renders no line here.  The two orders are those of
    Python's [sorted] when every change is a number; where a change is a
    NaN the order of Python's sort is not the one of [sort_desc]. *)
Definition performance_summary_lines (svc : Services) (market_data : MarketData)
  (start_date end_date : Z) : list string :=
  let date_range := date_range_text svc start_date end_date in
  let summary := [("MARKET PERFORMANCE (" ++ date_range ++ "):")%string] in
  let summary :=
    summary ++
    flat_map (fun kv =>
                if in_group_keys (fst kv) then []
                else match snd kv with
                     | MIndex e => [bullet_line svc (ie_name e) (ie_change_pct e)]
                     | _ => []
                     end) market_data in
  let summary :=
    match get market_data "sectors" with
    | Some (MSectors sectors) =>
        summary ++
        (newline ++ "SECTOR PERFORMANCE (" ++ date_range ++ "):")%string ::
        map (fun kv => bullet_line svc (se_name (snd kv)) (se_change_pct (snd kv)))
            (sort_desc sector_lt sectors)
    | _ => summary
    end in
  let summary :=
    match get market_data "stocks" with
    | Some (MStocks stocks) =>
        summary ++
        (newline ++ "NOTABLE STOCK MOVEMENTS (" ++ date_range ++ "):")%string ::
        map (fun kv => bullet_line svc (fst kv) (sk_change_pct (snd kv)))
            (firstn 10 (sort_desc stock_lt stocks))
    | _ => summary
    end in
  summary.

Definition _create_performance_summary (svc : Services) (market_data : MarketData)
  (start_date end_date : Z) : string :=
  join_lines (performance_summary_lines svc market_data start_date end_date).

Definition theme_names : dict string :=
  [("earnings", "Earnings Reports");
   ("fed_policy", "Federal Reserve & Monetary Policy");
   ("trade_tensions", "Trade & Tariffs");
   ("tech_developments", "Technology Developments");
   ("geopolitical", "Geopolitical Events");
   ("market_movements", "Major Market Movements");
   ("deals_ma", "Mergers & Acquisitions");
   ("china_sea", "China & Asia-Pacific");
   ("crypto", "Cryptocurrency");
   ("other", "Other Notable News")].

(** [enumerate(l, start)] *)
Fixpoint enumerate {A : Type} (start : nat) (l : list A) : list (nat * A) :=
  match l with
  | [] => []
  | x :: r => (start, x) :: enumerate (S start) r
  end.

(** The teaser of an entry: cut at 200 characters, with an ellipsis, when it
    is longer. *)
Definition entry_teaser (a : Article) : string :=
  if 200 <? String.length (get_or (a_teaser a) "")
  then (take 200 (get_or (a_teaser a) "") ++ "...")%string
  else get_or (a_teaser a) "".

(** The seven lines the renderer appends for one article. *)
Definition entry_lines (ia : nat * Article) : list string :=
  let '(i, article) := ia in
  let title := get_or (a_title article) "No title" in
  let teaser := entry_teaser article in
  let created := get_or (a_created article) "Date unknown" in
  let url := get_or (a_url article) "No URL available" in
  [(str_of_nat i ++ ". TITLE: " ++ title)%string;
   ("   DATE: " ++ created)%string;
   ("   SUMMARY: " ++ teaser)%string;
   "   SOURCE: Benzinga";
   ("   FULL ARTICLE: " ++ url)%string;
   "   DISCLAIMER: This is a third-party news source. Please verify independently.";
   ""].

(** The articles of a theme that are rendered: [enumerate(articles[:3], 1)]. *)
Definition rendered_entries (articles : list Article) : list (nat * Article) :=
  enumerate 1 (firstn 3 articles).

(** The heading of a theme, [f"\n{theme_name.upper()}:"]. *)
Definition theme_heading (theme : string) : string :=
  let theme_name :=
    match get theme_names theme with
    | Some n => n
    | None => PyStr.title theme
    end in
  (newline ++ upper theme_name ++ ":")%string.

(** What one iteration of the loop over [key_stories.items()] appends. *)
Definition theme_lines (theme : string) (articles : list Article) : list string :=
  match articles with
  | [] => []
  | _ :: _ => theme_heading theme :: flat_map entry_lines (rendered_entries articles)
  end.

Definition news_summary_lines (key_stories : Themes) : list string :=
  flat_map (fun kv => theme_lines (fst kv) (snd kv)) key_stories.

Definition _create_news_summary_with_sources (key_stories : Themes) : string :=
  join_lines (news_summary_lines key_stories).

(** The first line of an entry starts with its number; no other line the
    renderer appends starts with a digit. *)
Definition is_entry_head (line : string) : bool :=
  match line with
  | String c _ => let n := nat_of_ascii c in (48 <=? n) && (n <=? 57)
  | EmptyString => false
  end.

Definition system_prompt : string :=
  ("
        You are a senior financial market analyst writing a professional market insights report for institutional clients.
        
        CRITICAL INSTRUCTIONS - COMPLIANCE & ACCURACY:
        - Use ONLY the provided market data and news articles
        - ALWAYS include source links for any news references in your analysis
        - When mentioning news stories, format as: " ++ dquote ++ "According to Benzinga [insert URL], [story details]" ++ dquote ++ "
        - Add clear disclaimers that news content comes from third-party sources
        - Write with authority but acknowledge information sources transparently
        - Focus on analysis and interpretation rather than republishing news content
        - Maintain professional tone suitable for institutional clients
        
        COMPLIANCE REQUIREMENTS:
        - Include source attribution for all news references
        - Add disclaimers about third-party content
        - Focus on data analysis rather than news republication
        - Ensure readers can verify original sources independently
        ")%string.

Definition user_prompt (date_range performance_summary news_summary : string) : string :=
  ("
        Generate a comprehensive market insights report for the period "
   ++ date_range
   ++ ":
        
        MARKET PERFORMANCE DATA (Verified):
        "
   ++ performance_summary
   ++ "
        
        KEY NEWS DEVELOPMENTS WITH SOURCES:
        "
   ++ news_summary
   ++ "
        
        COMPLIANCE INSTRUCTIONS:
        - For any news story mentioned, include the source URL from the data above
        - Use format: " ++ dquote ++ "According to Benzinga (URL), [brief summary]" ++ dquote ++ "
        - Add disclaimer: " ++ dquote ++ "Readers should verify information independently from original sources" ++ dquote ++ "
        - Focus on analytical insights rather than republishing full news content
        
        Structure the report with these sections:
        1. Executive Summary (3-4 key themes with source links)
        2. Market Performance Analysis (indices, sectors, notable movements)
        3. Key Developments During Period (major themes with source links and disclaimers)
        4. Notable Stock Movements (significant performers with context)
        5. Market Outlook (forward-looking analysis based on trends)
        6. Sources & Disclaimers (comprehensive source list and compliance notices)
        
        Target length: 1200-1500 words. Write for sophisticated investors expecting actionable intelligence with full transparency.
        ")%string.

Definition report_request (svc : Services) (market_data : MarketData)
  (key_stories : Themes) (start_date end_date : Z) : ChatRequest :=
  let performance_summary :=
    _create_performance_summary svc market_data start_date end_date in
  let news_summary := _create_news_summary_with_sources key_stories in
  let date_range := date_range_text svc start_date end_date in
  mkChatRequest "gpt-4o" system_prompt
    (user_prompt date_range performance_summary news_summary)
    2500 0.7%float.

Definition report_error_text : string := "Error generating market report".

(** [generate_market_report]: one call inside a [try]; the [except] branch
    shows the error and returns a fixed text. *)
Definition generate_market_report (svc : Services) (market_data : MarketData)
  (key_stories : Themes) (start_date end_date : Z) : IO string :=
  let req := report_request svc market_data key_stories start_date end_date in
  emit (EvChat req) ;;;
  match openai_chat svc req with
  | ChatContent content => ret (strip content)
  | ChatRaised e =>
      emit (EvStError ("OpenAI API error: " ++ e)%string) ;;;
      ret report_error_text
  end.

(* ================================================================== *)
(** ** Translator: [translate_content] *)

Definition language_map : dict string :=
  [("Thai", "Thai"); ("Simplified Chinese", "Simplified Chinese");
   ("Traditional Chinese", "Traditional Chinese"); ("Vietnamese", "Vietnamese")].

Definition translation_request (language content : string) : ChatRequest :=
  mkChatRequest "gpt-4o"
    ("You are a professional financial translator. Translate the following market report to "
       ++ language ++ " while maintaining professional tone and financial accuracy.")%string
    content 3000 0.3%float.

(** A language outside [language_map] raises [KeyError] while the messages
    are built, inside the [try] and before any call. *)
Definition translate_content (svc : Services) (content target_language : string)
  : IO string :=
  if String.eqb target_language "English" then ret content
  else
    match get language_map target_language with
    | None =>
        emit (EvStError ("Translation error: '" ++ target_language ++ "'")%string) ;;;
        ret content
    | Some language =>
        let req := translation_request language content in
        emit (EvChat req) ;;;
        match openai_chat svc req with
        | ChatContent translated => ret (strip translated)
        | ChatRaised e =>
            emit (EvStError ("Translation error: " ++ e)%string) ;;;
            ret content
        end
    end.

(* ================================================================== *)
(** ** News fetcher *)

(** [_make_benzinga_request]: every exception of the request, the read or
    the JSON parse is caught, shown, and turned into the empty list; so is a
    JSON value that is not a list. *)
Definition _make_benzinga_request (svc : Services) (req : NewsRequest)
  : IO (list Article) :=
  emit (EvNews req) ;;;
  match benzinga svc req with
  | NewsList articles => ret articles
  | NewsOther => ret []
  | NewsRaised e =>
      emit (EvStError ("Benzinga API error: " ++ e)%string) ;;;
      ret []
  end.

Definition get_articles_by_date_range (benzinga_key : string) (svc : Services)
  (start_date end_date : Z) : IO (list Article) :=
  _make_benzinga_request svc
    (mkNewsRequest "/v2/news" 200 "full" start_date end_date benzinga_key).

(* ================================================================== *)
(** ** The pipeline of [main] *)

(** The object [main] builds: the news key and the market configuration. *)
Record Generator : Type := mkGenerator {
  benzinga_key : string;
  config : Config
}.

(** The widgets [main] reads. *)
Record Inputs : Type := mkInputs {
  in_start_date : Z;
  in_end_date : Z;
  in_language : string;
  in_themes_limit : Z;
  in_generate_button : bool
}.

(** [st.session_state.report_data] *)
Record ReportData : Type := mkReportData {
  rd_content : string;
  rd_start_date : Z;
  rd_end_date : Z;
  rd_language : string;
  rd_articles_count : nat;
  rd_themes_count : nat;
  rd_market_data : MarketData
}.

(** How one run of [main] ends. *)
Inductive Outcome : Type :=
| DateError
| NotRequested
| NoArticles
| Stored (report_data : ReportData).

Definition non_empty_count (themes : Themes) : nat :=
  length (filter (fun kv => match snd kv with [] => false | _ => true end) themes).

(** The [try] block of [main], run when the button is pressed.  Every call
    in the block catches its own exceptions, and an article here has texts
    (or nothing) in its fields, so nothing in the block raises: the
    [except Exception] branch of [main], which shows a processing error and
    stores nothing (as for an article whose title is a JSON null), has no
    counterpart in this model. *)
Definition pipeline (gen : Generator) (svc : Services) (inp : Inputs) : IO Outcome :=
  market_data <- get_market_data_by_range (config gen) svc
                   (in_start_date inp) (in_end_date inp) ;;
  articles <- get_articles_by_date_range (benzinga_key gen) svc
                (in_start_date inp) (in_end_date inp) ;;
  match articles with
  | [] =>
      emit (EvErrorBox "Data Warning: No articles found for selected period. Consider expanding date range.") ;;;
      ret NoArticles
  | _ :: _ =>
      let themes := categorize_news_themes articles in
      let key_stories :=
        extract_key_stories (fromisoformat svc) (clock svc) themes
                            (in_themes_limit inp) in
      report_content <- generate_market_report svc market_data key_stories
                          (in_start_date inp) (in_end_date inp) ;;
      report_content <-
        (if negb (String.eqb (in_language inp) "English")
         then translate_content svc report_content (in_language inp)
         else ret report_content) ;;
      ret (Stored (mkReportData report_content (in_start_date inp)
                     (in_end_date inp) (in_language inp) (length articles)
                     (non_empty_count themes) market_data))
  end.

(** [main] from the date validation on. *)
Definition main (gen : Generator) (svc : Services) (inp : Inputs) : IO Outcome :=
  if (in_end_date inp <=? in_start_date inp)%Z then
    emit (EvErrorBox "Date Error: Start date must be before end date.") ;;;
    ret DateError
  else if in_generate_button inp then pipeline gen svc inp
  else ret NotRequested.

(* ================================================================== *)
(** ** Keys, password and the access gate *)

(** Where keys and the password come from: [os.getenv], which gives [None]
    for a variable that is not set, and [st.secrets[...]], which raises when
    the key or the secrets file is missing ([None] here). *)
Record KeyStore : Type := mkKeyStore {
  getenv : string -> option string;
  secrets : string -> option string
}.

(** The truth value of a string: the empty string is false. *)
Definition truthy (s : string) : bool := negb (String.eqb s "").

(** [_get_api_key]: the environment first, then the secrets inside a
    [try], then the empty string. *)
Definition _get_api_key (ks : KeyStore) (key_name : string) : string :=
  let from_secrets :=
    match secrets ks key_name with
    | Some v => v
    | None => ""
    end in
  match getenv ks key_name with
  | Some api_key => if truthy api_key then api_key else from_secrets
  | None => from_secrets
  end.

(** [get_app_password]: the environment, then the secrets, then the default
    the program falls back to. *)
Definition get_app_password (ks : KeyStore) : string :=
  let from_secrets :=
    match secrets ks "APP_PASSWORD" with
    | Some password => password
    | None => "weekly_report"
    end in
  match getenv ks "APP_PASSWORD" with
  | Some password => if truthy password then password else from_secrets
  | None => from_secrets
  end.

(** [StreamlitMarketReportGenerator.__init__]: both keys are read; when one
    is empty the error is shown and [st.stop()] ends the run ([None]). *)
Definition __init__ (ks : KeyStore) : IO (option Generator) :=
  let benzinga_key := _get_api_key ks "BENZINGA_API_KEY" in
  let openai_key := _get_api_key ks "OPENAI_API_KEY" in
  if negb (truthy benzinga_key) || negb (truthy openai_key) then
    emit (EvStError "❌ API keys not found. Please check your .env file or Streamlit secrets.") ;;;
    ret None
  else ret (Some (mkGenerator benzinga_key _setup_market_config)).

(** The login form of one run: the text typed and whether the button was
    pressed. *)
Record LoginForm : Type := mkLoginForm {
  typed_password : string;
  login_button : bool
}.

(** How [password_check] leaves: it returns to [main], it has set the flag
    and asks for a rerun, or it has stopped the run on the login page. *)
Inductive GateOutcome : Type :=
| Proceed
| Rerun
| Stopped.

(** [password_check].  [session] is [st.session_state.authenticated], absent
    in a new session; the first component of the result is the flag the run
    leaves in the session. *)
Definition password_check (ks : KeyStore) (session : option bool)
  (form : LoginForm) : IO (bool * GateOutcome) :=
  let authenticated := match session with Some b => b | None => false end in
  if authenticated then ret (true, Proceed)
  else if login_button form then
    if String.eqb (typed_password form) (get_app_password ks)
    then ret (true, Rerun)
    else
      emit (EvStError "❌ Invalid access code. Please verify and try again.") ;;;
      ret (false, Stopped)
  else ret (false, Stopped).

(** How one run of the script ends. *)
Inductive ScriptOutcome : Type :=
| AtLogin (gate : GateOutcome)
| MissingKeys
| Ran (outcome : Outcome).

(** [main] from its first line: the gate, the generator, then the part
    modelled by [main] above. *)
Definition run_script (ks : KeyStore) (session : option bool) (form : LoginForm)
  (svc : Services) (inp : Inputs) : IO (bool * ScriptOutcome) :=
  gate <- password_check ks session form ;;
  match snd gate with
  | Proceed =>
      generator <- __init__ ks ;;
      match generator with
      | None => ret (fst gate, MissingKeys)
      | Some gen =>
          outcome <- main gen svc inp ;;
          ret (fst gate, Ran outcome)
      end
  | other => ret (fst gate, AtLogin other)
  end.

(** The flag after a sequence of runs of the gate, one form per run. *)
Fixpoint login_runs (ks : KeyStore) (session : option bool)
  (forms : list LoginForm) : option bool :=
  match forms with
  | [] => session
  | form :: rest =>
      login_runs ks (Some (fst (result (password_check ks session form)))) rest
  end.

(* ================================================================== *)
(** ** Sample environments *)

(** Services given by a price provider, a news provider and a language
    service; timestamps do not parse, the clock stands still and the
    formatting functions return fixed texts. *)
Definition services_of (history : string -> Z -> Z -> FetchOutcome)
  (news : NewsRequest -> NewsOutcome) (chat : ChatRequest -> ChatOutcome)
  : Services :=
  mkServices history news chat (fun _ => None) (fun _ => 0%Z)
             (fun _ => "a day") (fun _ => "+0.00").

(** A price provider with no data, a news provider with no article, a
    language service that answers [ok]. *)
Definition quiet_services : Services :=
  services_of (fun _ _ _ => History []) (fun _ => NewsList [])
              (fun _ => ChatContent "ok").

(** One article about Apple. *)
Definition apple_article : Article :=
  mkArticle (Some "Apple posts record quarterly revenue")
            (Some "The company reported earnings above expectations.")
            (Some "2024-05-02T20:30:00Z")
            (Some "https://www.benzinga.com/news/1").

(** A news provider with one article and a language service that raises. *)
Definition chat_fails : Services :=
  services_of (fun _ _ _ => History []) (fun _ => NewsList [apple_article])
              (fun _ => ChatRaised "timed out").

(** The same news with a language service that answers with the text the
    report builder uses in its [except] branch. *)
Definition chat_says_error_text : Services :=
  services_of (fun _ _ _ => History []) (fun _ => NewsList [apple_article])
              (fun _ => ChatContent "Error generating market report").

(** A news provider that raises. *)
Definition news_fails : Services :=
  services_of (fun _ _ _ => History []) (fun _ => NewsRaised "HTTP Error 503")
              (fun _ => ChatContent "ok").

(** A generator with the default configuration and a week of input. *)
Definition sample_generator : Generator := mkGenerator "token" _setup_market_config.

Definition sample_inputs : Inputs := mkInputs 0 7 "English" 3 true.

(** A bucket of five articles. *)
Definition five_stories : Themes :=
  [("other", [mkArticle (Some "One") None None None;
              mkArticle (Some "Two") None None None;
              mkArticle (Some "Three") None None None;
              mkArticle (Some "Four") None None None;
              mkArticle (Some "Five") None None None])].

(** Three buckets, one of them empty. *)
Definition sample_themes : Themes :=
  [("earnings", [mkArticle (Some "Quarterly update") None None None;
                 mkArticle (Some "Record profit") None None None;
                 mkArticle (Some "Historic revenue") None None None]);
   ("crypto", []);
   ("other", [mkArticle (Some "Weather") None None None])].

(** Three indices, of which the second raises. *)
Definition three_indices : Config :=
  mkConfig [("^GSPC", "S&P 500"); ("^DJI", "Dow Jones"); ("^IXIC", "NASDAQ")]
           [] [] [].

Definition dow_fails : Services :=
  services_of (fun t _ _ => if String.eqb t "^DJI" then Raised
                            else History [100; 110]%float)
              (fun _ => NewsList []) (fun _ => ChatContent "ok").

(** An article whose title names every company and every impact and urgency
    word of the scorer. *)
Definition loud_article : Article :=
  mkArticle
    (Some "BREAKING: Apple, Microsoft, Google, Amazon, Tesla, Meta and Nvidia in record billion deal")
    (Some "Just in - urgent alert: a historic breakthrough worth a million ends the crisis")
    (Some "2024-05-02T20:30:00Z") None.

(** One instrument in each group, and a provider with a rising index whose
    closes need rounding, a falling sector, a stock whose change has no
    finite decimal expansion and a stock with a single close. *)
Definition mixed_config : Config :=
  mkConfig [("^GSPC", "S&P 500")] [("XLK", "Technology")] ["AAPL"] ["BABA"].

Definition mixed_prices : Services :=
  services_of
    (fun t _ _ =>
       if String.eqb t "^GSPC" then History [3.14159; 7; 4.98765]%float
       else if String.eqb t "XLK" then History [110; 100]%float
       else if String.eqb t "AAPL" then History [3; 4]%float
       else History [8]%float)
    (fun _ => NewsList []) (fun _ => ChatContent "ok").

(** A parser that knows one instant, 2 May 2024 20:30 UTC, written with an
    offset and without one, as [datetime.fromisoformat] reads the two
    spellings; every other text is refused. *)
Definition sample_created_us : Z := 1714681800000000.

Definition sample_fromisoformat (s : string) : option DateTime :=
  if String.eqb s "2024-05-02T20:30:00+00:00" then Some (Aware sample_created_us)
  else if String.eqb s "2024-05-02T20:30:00" then Some (Naive sample_created_us)
  else None.

(** An article with no scoring word, created as the text says. *)
Definition plain_article (created : string) : Article :=
  mkArticle (Some "Weather") (Some "Rain tomorrow") (Some created) None.

(* ================================================================== *)
(** ** Vocabulary of the statements *)

Definition theme_keys : list string := keys empty_themes.

(** Does the rule of theme [k] fire on [text]? *)
Definition matched_by (k text : string) : bool :=
  existsb (fun r => String.eqb (fst r) k && any_in (snd r) text) theme_rules.

(** Does no rule fire on [text]? *)
Definition unmatched (text : string) : bool :=
  negb (existsb (fun r => any_in (snd r) text) theme_rules).

(** Does the classifier put [a] in the bucket of [k]? *)
Definition carries (k : string) (a : Article) : bool :=
  if String.eqb k "other" then unmatched (article_text a)
  else matched_by k (article_text a).

(** The title and the teaser of an article joined by one space: the text the
    program builds, before it is put in lower case. *)
Definition joined_text (a : Article) : string :=
  (get_or (a_title a) "" ++ " " ++ get_or (a_teaser a) "")%string.

(** [w] occurs in [text] as a contiguous run when case is ignored. *)
Definition occurs_ci (w text : string) : Prop :=
  exists pre post, lower text = (pre ++ lower w ++ post)%string.

(** One keyword of the list occurs in the joined text of the article. *)
Definition rule_fires (ws : list string) (a : Article) : Prop :=
  exists w, In w ws /\ occurs_ci w (joined_text a).

(** How many words of the list occur in the text. *)
Definition hits (words : list string) (text : string) : Z :=
  Z.of_nat (length (filter (fun w => str_in w text) words)).

(** [desc x y]: the score of [y] is not above the score of [x]. *)
Definition desc (x y : Scored) : Prop := (snd y <= snd x)%Z.

Definition has_score (s : Z) (x : Scored) : bool := (snd x =? s)%Z.

(** The number of scorer calls the extractor makes before it reaches the
    bucket of theme [t]. *)
Fixpoint calls_before (themes : Themes) (t : string) : nat :=
  match themes with
  | [] => 0
  | (k, articles) :: rest =>
      if String.eqb t k then 0 else length articles + calls_before rest t
  end.

(** The value configured last for a ticker in a list of instruments. *)
Fixpoint last_binding {X : Type} (items : list (string * X)) (t : string)
  : option X :=
  match items with
  | [] => None
  | (k, x) :: rest =>
      match last_binding rest t with
      | Some x' => Some x'
      | None => if String.eqb t k then Some x else None
      end
  end.

(** Did the [try] of ticker [t] reach the assignment? *)
Definition succeeded (svc : Services) (start_date end_date : Z) (t : string) : bool :=
  match performance (yf_history svc t start_date (end_date + 1)) with
  | Some _ => true
  | None => false
  end.

(** The three dictionaries of one run. *)
Definition index_data cfg svc s e : MarketData :=
  result (fetch_group svc s e index_value (market_indices cfg) []).

Definition sector_data cfg svc s e : dict SectorEntry :=
  result (fetch_group svc s e sector_value (sector_etfs cfg) []).

Definition stock_data cfg svc s e : dict StockEntry :=
  result (fetch_group svc s e stock_value
            (map (fun t => (t, tt)) (major_stocks cfg ++ sea_stocks cfg)) []).

(** Does an entry of a dictionary of buckets hold an article? *)
Definition has_articles (kv : string * list Article) : bool :=
  match snd kv with
  | [] => false
  | _ :: _ => true
  end.

(** The entries one loop of the aggregator records for a list of
    instruments with distinct tickers: one for each instrument whose fetch
    succeeds, in the order of the list. *)
Definition recorded {X V : Type} (svc : Services) (s e : Z)
  (entry : X -> Perf -> V) (items : list (string * X)) : dict V :=
  flat_map (fun kx =>
              match performance (yf_history svc (fst kx) s (e + 1)) with
              | Some p => [(fst kx, entry (snd kx) p)]
              | None => []
              end) items.

(** Events by kind: a call to the language service, a request to one of the
    two data providers, any call to an external service. *)
Definition is_chat (ev : Event) : bool :=
  match ev with
  | EvChat _ => true
  | _ => false
  end.

Definition is_fetch (ev : Event) : bool :=
  match ev with
  | EvHistory _ _ _ => true
  | EvNews _ => true
  | _ => false
  end.

Definition is_service (ev : Event) : bool := is_chat ev || is_fetch ev.

Definition chat_calls (t : list Event) : nat := length (filter is_chat t).

(** A key can be found: the environment has it with a non-empty value, or
    the secrets have it with a non-empty value. *)
Definition key_available (ks : KeyStore) (key_name : string) : Prop :=
  (exists v, getenv ks key_name = Some v /\ v <> "") \/
  (exists v, secrets ks key_name = Some v /\ v <> "").

(** A store with nothing in it, and one with the two keys in the
    environment. *)
Definition empty_store : KeyStore := mkKeyStore (fun _ => None) (fun _ => None).

Definition env_store : KeyStore :=
  mkKeyStore (fun k => if String.eqb k "APP_PASSWORD" then None else Some "key")
             (fun _ => None).

(** Whole numbers as binary64 values, exact below [2^53]. *)
Fixpoint float_of_positive (p : positive) : float :=
  match p with
  | xH => 1%float
  | xO q => (2 * float_of_positive q)%float
  | xI q => (2 * float_of_positive q + 1)%float
  end.

Definition float_of_Z (z : Z) : float :=
  match z with
  | Z0 => 0%float
  | Zpos p => float_of_positive p
  | Zneg p => (- float_of_positive p)%float
  end.

(** The percentage change from [s] to [e] in hundredths of a percent,
    computed exactly over the integers: [(e - s) / s * 100] rounded to two
    decimals, a tie going to the even hundredth.  [s] is positive. *)
Definition exact_hundredths (s e : Z) : Z :=
  let n := (10000 * (e - s))%Z in
  let q := (n / s)%Z in
  let r := (n mod s)%Z in
  if (2 * r <? s)%Z then q
  else if (s <? 2 * r)%Z then (q + 1)%Z
  else if Z.even q then q else (q + 1)%Z.

(** Does the recorded change for the whole closes [s] and [e] equal the
    exact one? *)
Definition change_agrees (s e : Z) : bool :=
  PrimFloat.eqb (round2 (change_pct (float_of_Z s) (float_of_Z e)))
                (float_of_Z (exact_hundredths s e) / 100)%float.

(** The whole numbers from 1 to [n]. *)
Definition whole_closes (n : nat) : list Z := map Z.of_nat (seq 1 n).

(* ================================================================== *)
(** * Properties *)

(** ** Strings *)

Lemma prefix_iff_app : forall w t,
  String.prefix w t = true <-> exists post, t = (w ++ post)%string.
Proof.
  induction w as [|c w IH]; intros t; simpl.
  - split; [intros _; exists t; reflexivity | intros _; destruct t; reflexivity].
  - destruct t as [|d t].
    + split; [discriminate | intros [post H]; discriminate].
    + simpl. destruct (ascii_dec c d) as [->|Hne].
      * rewrite IH. split; intros [post H]; exists post.
        -- now rewrite H.
        -- now inversion H.
      * split; [discriminate | intros [post H]; inversion H; congruence].
Qed.

(** [str_in w t] holds exactly when [t] is [pre ++ w ++ post]. *)
Lemma str_in_iff : forall w t,
  str_in w t = true <-> exists pre post, t = (pre ++ w ++ post)%string.
Proof.
  intros w t; induction t as [|d t IH].
  - cbn [str_in]. destruct (String.prefix w "") eqn:Hp.
    + apply prefix_iff_app in Hp. destruct Hp as [post H].
      split; [intros _; exists "", post; exact H | reflexivity].
    + split; [discriminate|].
      intros [pre [post H]]. destruct pre; simpl in H.
      * assert (String.prefix w "" = true) by (apply prefix_iff_app; eauto).
        congruence.
      * discriminate.
  - cbn [str_in]. destruct (String.prefix w (String d t)) eqn:Hp.
    + apply prefix_iff_app in Hp. destruct Hp as [post H].
      split; [intros _; exists "", post; exact H | reflexivity].
    + rewrite IH. split.
      * intros [pre [post H]]. exists (String d pre), post. simpl. now rewrite H.
      * intros [pre [post H]]. destruct pre as [|e pre]; simpl in H.
        -- assert (String.prefix w (String d t) = true)
             by (apply prefix_iff_app; eauto).
           congruence.
        -- inversion H. eauto.
Qed.

Lemma lower_app : forall a b, lower (a ++ b) = (lower a ++ lower b)%string.
Proof.
  induction a as [|c a IH]; intros b; simpl; [reflexivity | now rewrite IH].
Qed.

Lemma any_in_iff : forall words text,
  any_in words text = true <-> exists w, In w words /\ str_in w text = true.
Proof. intros; unfold any_in; apply existsb_exists. Qed.

(** The text searched is the lower-cased title, a space and the lower-cased
    teaser: the lower case of the two joined by a space. *)
Lemma article_text_lower : forall a,
  article_text a =
  lower (get_or (a_title a) "" ++ " " ++ get_or (a_teaser a) "").
Proof.
  intros a; unfold article_text. now rewrite !lower_app.
Qed.

(** ** Dictionaries *)

Lemma get_set_same : forall V (d : dict V) k v, get (set d k v) k = Some v.
Proof.
  induction d as [|[k' v'] d IH]; intros k v; simpl.
  - now rewrite String.eqb_refl.
  - destruct (String.eqb k k') eqn:E; simpl; rewrite E; auto.
Qed.

Lemma get_set_other : forall V (d : dict V) k k' v,
  k' <> k -> get (set d k v) k' = get d k'.
Proof.
  induction d as [|[k0 v0] d IH]; intros k k' v Hne; simpl.
  - destruct (String.eqb k' k) eqn:E; [apply String.eqb_eq in E; contradiction | reflexivity].
  - destruct (String.eqb k k0) eqn:E; simpl.
    + apply String.eqb_eq in E; subst k0.
      destruct (String.eqb k' k) eqn:E'; [apply String.eqb_eq in E'; contradiction | reflexivity].
    + destruct (String.eqb k' k0); auto.
Qed.

Lemma get_set : forall V (d : dict V) k k' v,
  get (set d k v) k' = if String.eqb k' k then Some v else get d k'.
Proof.
  intros V d k k' v. destruct (String.eqb k' k) eqn:E.
  - apply String.eqb_eq in E; subst. apply get_set_same.
  - apply String.eqb_neq in E. now apply get_set_other.
Qed.

Lemma get_none_iff : forall V (d : dict V) k, get d k = None <-> ~ In k (keys d).
Proof.
  induction d as [|[k0 v0] d IH]; intros k; simpl.
  - tauto.
  - destruct (String.eqb k k0) eqn:E.
    + apply String.eqb_eq in E; subst. split; [discriminate | intros H; exfalso; auto].
    + apply String.eqb_neq in E. rewrite IH. split; intros H.
      * intros [H1|H1]; [congruence | contradiction].
      * intros H1; apply H; auto.
Qed.

Lemma get_some_in : forall V (d : dict V) k v, get d k = Some v -> In (k, v) d.
Proof.
  induction d as [|[k0 v0] d IH]; intros k v; simpl; [discriminate|].
  destruct (String.eqb k k0) eqn:E.
  - apply String.eqb_eq in E; subst. intros H; inversion H; auto.
  - auto.
Qed.

Lemma in_get_wf : forall V (d : dict V) k v,
  wf d -> In (k, v) d -> get d k = Some v.
Proof.
  induction d as [|[k0 v0] d IH]; intros k v Hwf Hin; simpl in *; [contradiction|].
  unfold wf in Hwf; simpl in Hwf. inversion Hwf as [|? ? Hnot Hnd]; subst.
  destruct Hin as [Heq|Hin].
  - inversion Heq; subst. now rewrite String.eqb_refl.
  - destruct (String.eqb k k0) eqn:E.
    + apply String.eqb_eq in E; subst. exfalso; apply Hnot.
      change (In (fst (k0, v)) (map fst d)). now apply in_map.
    + now apply IH.
Qed.

Lemma keys_set_present : forall V (d : dict V) k v v',
  get d k = Some v' -> keys (set d k v) = keys d.
Proof.
  induction d as [|[k0 v0] d IH]; intros k v v'; simpl; [discriminate|].
  destruct (String.eqb k k0) eqn:E; simpl; [reflexivity|].
  intros H. f_equal. eapply IH; eauto.
Qed.

(** A dictionary is determined by its keys and the value under each. *)
Lemma dict_by_keys : forall V (f : string -> V) (d : dict V),
  wf d -> (forall k, In k (keys d) -> get d k = Some (f k)) ->
  d = map (fun k => (k, f k)) (keys d).
Proof.
  induction d as [|[k0 v0] d IH]; intros Hwf Hget; simpl; [reflexivity|].
  unfold wf in Hwf; simpl in Hwf. inversion Hwf as [|? ? Hnot Hnd]; subst.
  f_equal.
  - specialize (Hget k0 (or_introl eq_refl)). simpl in Hget.
    rewrite String.eqb_refl in Hget. now inversion Hget.
  - apply IH; [exact Hnd|]. intros k Hk.
    specialize (Hget k (or_intror Hk)). simpl in Hget.
    destruct (String.eqb k k0) eqn:E; [|exact Hget].
    apply String.eqb_eq in E; subst. contradiction.
Qed.

(** ** Theme classifier *)

Lemma get_append_to : forall (th : Themes) k0 a k,
  get (append_to th k0 a) k =
  if String.eqb k k0 then option_map (fun l => l ++ [a]) (get th k) else get th k.
Proof.
  intros th k0 a k. unfold append_to.
  destruct (get th k0) as [l|] eqn:E.
  - rewrite get_set. destruct (String.eqb k k0) eqn:Ek; [|reflexivity].
    apply String.eqb_eq in Ek; subst. now rewrite E.
  - destruct (String.eqb k k0) eqn:Ek; [|reflexivity].
    apply String.eqb_eq in Ek; subst. now rewrite E.
Qed.

Lemma keys_append_to : forall (th : Themes) k0 a, keys (append_to th k0 a) = keys th.
Proof.
  intros th k0 a. unfold append_to. destruct (get th k0) eqn:E; [|reflexivity].
  eapply keys_set_present; eauto.
Qed.

Lemma rules_fold : forall a text rs th c,
  let st := fold_left (rule_step a text) rs (th, c) in
  snd st = c || existsb (fun r => any_in (snd r) text) rs /\
  keys (fst st) = keys th /\
  forall k, get (fst st) k =
            option_map (fun l => l ++ flat_map (fun r =>
                          if String.eqb (fst r) k && any_in (snd r) text
                          then [a] else []) rs) (get th k).
Proof.
  intros a text rs; induction rs as [|[k0 ws] rs IH]; intros th c; simpl.
  - rewrite orb_false_r. repeat split.
    intros k. destruct (get th k); simpl; [now rewrite app_nil_r | reflexivity].
  - change (rule_step a text (th, c) (k0, ws))
      with (if any_in ws text then (append_to th k0 a, true) else (th, c)).
    destruct (any_in ws text) eqn:Hm.
    + destruct (IH (append_to th k0 a) true) as [Hc [Hk Hg]].
      rewrite Hc, Hk, keys_append_to. rewrite orb_true_r. repeat split.
      intros k. rewrite Hg, get_append_to, andb_true_r.
      rewrite (String.eqb_sym k0 k).
      destruct (String.eqb k k0); destruct (get th k); simpl; try reflexivity.
      now rewrite <- app_assoc.
    + destruct (IH th c) as [Hc [Hk Hg]].
      rewrite Hc, Hk. repeat split.
      intros k. rewrite Hg, andb_false_r. reflexivity.
Qed.

Lemma flat_map_once : forall (A B : Type) (m : string * B -> bool)
  (rs : list (string * B)) (k : string) (a : A),
  NoDup (map fst rs) ->
  flat_map (fun r => if String.eqb (fst r) k && m r then [a] else []) rs =
  if existsb (fun r => String.eqb (fst r) k && m r) rs then [a] else [].
Proof.
  intros A B m rs k a; induction rs as [|r rs IH]; intros Hnd; simpl; [reflexivity|].
  inversion Hnd as [|? ? Hnot Hnd']; subst.
  rewrite (IH Hnd'). destruct (String.eqb (fst r) k) eqn:E; simpl; [|reflexivity].
  apply String.eqb_eq in E.
  assert (Hno : existsb (fun r0 => String.eqb (fst r0) k && m r0) rs = false).
  { apply not_true_is_false. intros Hex. apply existsb_exists in Hex.
    destruct Hex as [r' [Hin Hr']]. apply andb_true_iff in Hr'.
    destruct Hr' as [Hr' _]. apply String.eqb_eq in Hr'.
    apply Hnot. rewrite E, <- Hr'. now apply in_map. }
  rewrite Hno. now destruct (m r).
Qed.

Lemma theme_rules_nodup : NoDup (map fst theme_rules).
Proof.
  simpl. repeat (constructor; [simpl; intros H; repeat destruct H as [H|H]; try discriminate H; exact H|]).
  constructor.
Qed.

Lemma matched_by_other : forall text, matched_by "other" text = false.
Proof. intros text. unfold matched_by. simpl. reflexivity. Qed.

(** One turn of the loop over the articles, bucket by bucket. *)
Lemma get_categorize_article : forall th a k,
  get (categorize_article th a) k =
  option_map (fun l => l ++ if carries k a then [a] else []) (get th k).
Proof.
  intros th a k. unfold categorize_article.
  pose proof (rules_fold a (article_text a) theme_rules th false) as H.
  destruct (fold_left (rule_step a (article_text a)) theme_rules (th, false))
    as [th' c] eqn:Hf.
  cbv zeta in H; cbn [fst snd orb] in H. destruct H as [Hc [_ Hg]].
  assert (Hm : forall k', get th' k' =
            option_map (fun l => l ++ if matched_by k' (article_text a)
                                      then [a] else []) (get th k')).
  { intros k'. rewrite Hg. unfold matched_by.
    now rewrite (flat_map_once _ _ (fun r => any_in (snd r) (article_text a))
                   theme_rules k' a theme_rules_nodup). }
  unfold carries, unmatched. rewrite <- Hc.
  destruct (String.eqb k "other") eqn:Ek.
  - apply String.eqb_eq in Ek; subst k. destruct c; simpl.
    + rewrite Hm, matched_by_other. reflexivity.
    + rewrite get_append_to, String.eqb_refl, Hm, matched_by_other.
      destruct (get th "other"); simpl; [|reflexivity].
      now rewrite app_nil_r.
  - destruct c; [apply Hm|].
    rewrite get_append_to, Ek. apply Hm.
Qed.

Lemma keys_categorize_article : forall th a, keys (categorize_article th a) = keys th.
Proof.
  intros th a. unfold categorize_article.
  pose proof (rules_fold a (article_text a) theme_rules th false) as H.
  destruct (fold_left (rule_step a (article_text a)) theme_rules (th, false))
    as [th' c].
  cbv zeta in H; cbn [fst snd] in H. destruct H as [_ [Hk _]].
  destruct c; [exact Hk | now rewrite keys_append_to].
Qed.

Lemma categorize_fold : forall articles th,
  keys (fold_left categorize_article articles th) = keys th /\
  forall k, get (fold_left categorize_article articles th) k =
            option_map (fun l => l ++ filter (carries k) articles) (get th k).
Proof.
  induction articles as [|a articles IH]; intros th; simpl.
  - split; [reflexivity|]. intros k. destruct (get th k); simpl; [now rewrite app_nil_r | reflexivity].
  - destruct (IH (categorize_article th a)) as [Hk Hg]. split.
    + now rewrite Hk, keys_categorize_article.
    + intros k. rewrite Hg, get_categorize_article.
      destruct (get th k); simpl; [|reflexivity].
      rewrite <- app_assoc. now destruct (carries k a).
Qed.

(** The buckets of the classifier: under every theme, the articles that
    carry it, in the order of the input. *)
Lemma categorize_buckets : forall articles,
  categorize_news_themes articles =
  map (fun k => (k, filter (carries k) articles)) theme_keys.
Proof.
  intros articles. unfold categorize_news_themes.
  destruct (categorize_fold articles empty_themes) as [Hk Hg].
  fold theme_keys in Hk. rewrite <- Hk.
  apply dict_by_keys.
  - unfold wf. rewrite Hk. unfold theme_keys; simpl.
    repeat (constructor; [simpl; intros H; repeat destruct H as [H|H]; try discriminate H; exact H|]).
    constructor.
  - intros k Hin. rewrite Hk in Hin. rewrite Hg.
    unfold theme_keys in Hin; simpl in Hin.
    repeat destruct Hin as [Hin|Hin]; try contradiction; subst k; reflexivity.
Qed.

Lemma article_labels_filter : forall a,
  article_labels a = filter (fun k => carries k a) theme_keys.
Proof.
  intros a. unfold article_labels. rewrite categorize_buckets.
  induction theme_keys as [|k ks IH]; simpl in *; [reflexivity|].
  destruct (carries k a); simpl; [now rewrite IH | exact IH].
Qed.

Lemma theme_keywords_lower : forall k ws w,
  In (k, ws) theme_rules -> In w ws -> lower w = w.
Proof.
  assert (H : forallb (fun r => forallb (fun w => String.eqb (lower w) w) (snd r))
                      theme_rules = true) by reflexivity.
  intros k ws w Hr Hw. rewrite forallb_forall in H.
  specialize (H _ Hr). simpl in H. rewrite forallb_forall in H.
  now apply String.eqb_eq, H.
Qed.

Lemma any_in_rule_fires : forall k ws a,
  In (k, ws) theme_rules ->
  (any_in ws (article_text a) = true <-> rule_fires ws a).
Proof.
  intros k ws a Hr. rewrite any_in_iff. unfold rule_fires, occurs_ci, joined_text.
  rewrite article_text_lower.
  split; intros [w [Hw H]]; exists w; split; auto.
  - apply str_in_iff in H. now rewrite (theme_keywords_lower k ws w Hr Hw).
  - apply str_in_iff. now rewrite (theme_keywords_lower k ws w Hr Hw) in H.
Qed.

Lemma carries_rule : forall k ws a,
  In (k, ws) theme_rules -> carries k a = any_in ws (article_text a).
Proof.
  intros k ws a Hr. simpl in Hr.
  repeat destruct Hr as [Hr|Hr]; try contradiction; inversion Hr; subst;
    unfold carries, matched_by; simpl; rewrite ?orb_false_r; reflexivity.
Qed.

Lemma unmatched_iff : forall text,
  unmatched text = true <->
  forall k ws, In (k, ws) theme_rules -> any_in ws text = false.
Proof.
  intros text. unfold unmatched. rewrite negb_true_iff. split.
  - intros H k ws Hr. apply not_true_is_false. intros Hm.
    assert (existsb (fun r => any_in (snd r) text) theme_rules = true)
      by (apply existsb_exists; exists (k, ws); auto).
    congruence.
  - intros H. apply not_true_is_false. intros Hex.
    apply existsb_exists in Hex. destruct Hex as [[k ws] [Hr Hm]].
    simpl in Hm. rewrite (H k ws Hr) in Hm. discriminate.
Qed.

Lemma in_labels_iff : forall a k,
  In k (article_labels a) <-> In k theme_keys /\ carries k a = true.
Proof. intros a k. rewrite article_labels_filter. apply filter_In. Qed.

Lemma rule_key_is_theme : forall k ws, In (k, ws) theme_rules -> In k theme_keys.
Proof.
  intros k ws Hr. simpl in Hr.
  repeat destruct Hr as [Hr|Hr]; try contradiction; inversion Hr; subst;
    unfold theme_keys; simpl; tauto.
Qed.

Lemma theme_keys_split : theme_keys = map fst theme_rules ++ ["other"].
Proof. reflexivity. Qed.

Lemma filter_none : forall (A : Type) (f : A -> bool) (l : list A),
  (forall x, In x l -> f x = false) -> filter f l = [].
Proof.
  induction l as [|x l IH]; intros H; simpl; [reflexivity|].
  rewrite (H x (or_introl eq_refl)). apply IH. intros y Hy. apply H. now right.
Qed.

Lemma theme_keys_nodup : NoDup theme_keys.
Proof.
  unfold theme_keys; simpl.
  repeat (constructor; [simpl; intros H; repeat destruct H as [H|H]; try discriminate H; exact H|]).
  constructor.
Qed.

Lemma label_test : forall a k,
  In k theme_keys -> existsb (String.eqb k) (article_labels a) = carries k a.
Proof.
  intros a k Hk. destruct (carries k a) eqn:E.
  - apply existsb_exists. exists k. split; [|apply String.eqb_refl].
    apply in_labels_iff. auto.
  - apply not_true_is_false. intros H. apply existsb_exists in H.
    destruct H as [k' [Hin Heq]]. apply String.eqb_eq in Heq; subst k'.
    apply in_labels_iff in Hin. destruct Hin. congruence.
Qed.

(** C2.  The labels of an article are exactly the themes one of whose
    keywords occurs, case ignored, in the title and the teaser joined by a
    space; every rule is tested on its own; the label [other] is given
    exactly when no rule fires and is then the only one; an article with the
    text [Fed signals new tariffs on China imports] gets [fed_policy],
    [trade_tensions] and [china_sea] and nothing else.  On a list of
    articles the bucket of a theme holds the articles with that label, in
    the order of the list. *)
Theorem classifier_labels : forall a : Article,
  (forall k ws, In (k, ws) theme_rules ->
     (In k (article_labels a) <-> rule_fires ws a)) /\
  (In "other" (article_labels a) <->
     forall k ws, In (k, ws) theme_rules -> ~ rule_fires ws a) /\
  (forall k, In k (article_labels a) ->
     k = "other" \/ exists ws, In (k, ws) theme_rules) /\
  NoDup (article_labels a) /\
  ((forall k ws, In (k, ws) theme_rules -> ~ rule_fires ws a) ->
     article_labels a = ["other"]) /\
  (forall created url,
     article_labels (mkArticle (Some "Fed signals new tariffs on China imports")
                               None created url)
     = ["fed_policy"; "trade_tensions"; "china_sea"] /\
     article_labels (mkArticle (Some "Fed signals new tariffs")
                               (Some "on China imports") created url)
     = ["fed_policy"; "trade_tensions"; "china_sea"]) /\
  (forall articles k, In k theme_keys ->
     get (categorize_news_themes articles) k =
     Some (filter (fun x => existsb (String.eqb k) (article_labels x)) articles)).
Proof.
  intros a.
  assert (Hrule : forall k ws, In (k, ws) theme_rules ->
            (In k (article_labels a) <-> rule_fires ws a)).
  { intros k ws Hr. rewrite in_labels_iff, (carries_rule k ws a Hr).
    rewrite (any_in_rule_fires k ws a Hr).
    split; [tauto | intros H; split; [eapply rule_key_is_theme; eauto | exact H]]. }
  assert (Hnone : (forall k ws, In (k, ws) theme_rules -> ~ rule_fires ws a) <->
                  unmatched (article_text a) = true).
  { rewrite unmatched_iff. split; intros H k ws Hr.
    - apply not_true_is_false. intros Hm. apply (H k ws Hr).
      now apply (any_in_rule_fires k ws a Hr).
    - intros Hf. apply (any_in_rule_fires k ws a Hr) in Hf.
      rewrite (H k ws Hr) in Hf. discriminate. }
  assert (Hother : In "other" (article_labels a) <->
                   unmatched (article_text a) = true).
  { rewrite in_labels_iff. unfold carries; simpl.
    split; [tauto | intros H; split; [unfold theme_keys; simpl; tauto | exact H]]. }
  split; [exact Hrule|].
  split; [rewrite Hother; symmetry; exact Hnone|].
  split; [|split; [|split; [|split; [split|]]]].
  - intros k Hin. apply in_labels_iff in Hin. destruct Hin as [Hk _].
    rewrite theme_keys_split in Hk. apply in_app_or in Hk.
    destruct Hk as [Hk|[Hk|[]]]; [right | left; auto].
    apply in_map_iff in Hk. destruct Hk as [[k' ws] [Hfst Hr]].
    simpl in Hfst; subst k'. eauto.
  - rewrite article_labels_filter. apply NoDup_filter, theme_keys_nodup.
  - intros H. apply Hnone in H.
    rewrite article_labels_filter, theme_keys_split, filter_app.
    rewrite filter_none.
    + simpl. unfold carries; simpl. now rewrite H.
    + intros k Hk. apply in_map_iff in Hk. destruct Hk as [[k' ws] [Hfst Hr]].
      simpl in Hfst; subst k'. rewrite (carries_rule k ws a Hr).
      apply unmatched_iff with (k := k) (ws := ws) in H; auto.
  - reflexivity.
  - reflexivity.
  - intros articles k Hk. rewrite categorize_buckets.
    assert (Hf : filter (fun x => existsb (String.eqb k) (article_labels x)) articles
                 = filter (carries k) articles).
    { apply filter_ext. intros x. now apply label_test. }
    rewrite Hf. clear Hf.
    unfold theme_keys in *; simpl in Hk |- *.
    repeat destruct Hk as [Hk|Hk]; try contradiction; subst k; reflexivity.
Qed.

(** ** Importance scorer *)

Lemma sum_if_in_hits : forall weight words text,
  sum_if_in weight words text = (weight * hits words text)%Z.
Proof.
  intros weight words text. unfold sum_if_in, hits.
  induction words as [|w words IH]; simpl; [lia|].
  rewrite IH. destruct (str_in w text); simpl length; lia.
Qed.

(** An article stamped one hour before the evaluation, once without an
    offset and once in a format that is not ISO, gets no bonus; the same
    instant written with [Z] gets it. *)
Lemma fresh_article_without_offset_gets_no_bonus :
  let now := (sample_created_us + 3600000000)%Z in
  sample_fromisoformat "2024-05-02T20:30:00" = Some (Naive sample_created_us) /\
  (now - sample_created_us < day_us)%Z /\
  _score_article_importance sample_fromisoformat now
    (plain_article "2024-05-02T20:30:00") = 0%Z /\
  _score_article_importance sample_fromisoformat now
    (plain_article "Thu, 02 May 2024 20:30:00 +0000") = 0%Z /\
  _score_article_importance sample_fromisoformat now
    (plain_article "2024-05-02T20:30:00Z") = 5%Z.
Proof. cbv zeta. repeat split; vm_compute; reflexivity. Qed.

(** C4, as the program has it.  The score is the sum of 5 for every major
    company, 3 for every impact word and 4 for every urgency word that occurs
    in the lower-cased title and teaser (each word once, anywhere in the
    text), plus 5 exactly when the [created] text of the article, with [Z]
    replaced by [+00:00], is read as a time with an offset that is less than
    twenty-four hours before the instant of the evaluation; nothing is
    scaled or capped.  An article whose [created] text is missing, is not
    read at all, or is read as a time without offset gets no bonus, however
    recent it is. *)
Theorem importance_score_additive :
  forall (parse : string -> option DateTime) (now : Z) (a : Article),
  let text := lower (joined_text a) in
  let created := parse (replace_Z (get_or (a_created a) "")) in
  _score_article_importance parse now a =
    (5 * hits major_companies text + 3 * hits impact_words text
     + 4 * hits urgent_words text + recency_bonus parse now a)%Z /\
  (forall w, str_in w text = true <->
             exists pre post, text = (pre ++ w ++ post)%string) /\
  major_companies =
    ["apple"; "microsoft"; "google"; "amazon"; "tesla"; "meta"; "nvidia"] /\
  impact_words =
    ["billion"; "million"; "record"; "historic"; "breakthrough"; "crisis"] /\
  urgent_words = ["breaking"; "just in"; "urgent"; "alert"] /\
  (forall c, created = Some (Aware c) ->
     ((now - c < day_us)%Z -> recency_bonus parse now a = 5%Z) /\
     ((day_us <= now - c)%Z -> recency_bonus parse now a = 0%Z)) /\
  (created = None -> recency_bonus parse now a = 0%Z) /\
  (forall c, created = Some (Naive c) -> recency_bonus parse now a = 0%Z) /\
  day_us = (24 * 3600 * 1000000)%Z /\
  (recency_bonus parse now a = 5%Z <->
   exists c, created = Some (Aware c) /\ (now - c < day_us)%Z) /\
  (recency_bonus parse now a = 5%Z \/ recency_bonus parse now a = 0%Z) /\
  lower "Apple POSTS Record-Q3 [x]{y}@`" = "apple posts record-q3 [x]{y}@`" /\
  replace_Z "2024-05-02T20:30:00Z" = "2024-05-02T20:30:00+00:00" /\
  _score_article_importance (fun _ => None) now
    (mkArticle (Some "APPLE and Microsoft: RECORD Billion")
               (Some "BREAKING - Just In") None None) = 24%Z /\
  _score_article_importance (fun _ => None) now
    (mkArticle (Some "Apple, apple, APPLE") (Some "metadata") None None)
    = 10%Z /\
  _score_article_importance (fun _ => None) now
    (mkArticle (Some "just") (Some "in") None None) = 4%Z /\
  _score_article_importance (fun _ => None) now
    (mkArticle (Some "micro") (Some "soft") None None) = 0%Z /\
  _score_article_importance sample_fromisoformat
    (sample_created_us + 86399999999) (plain_article "2024-05-02T20:30:00Z")
    = 5%Z /\
  _score_article_importance sample_fromisoformat
    (sample_created_us + 86400000000) (plain_article "2024-05-02T20:30:00Z")
    = 0%Z.
Proof.
  intros parse now a text created.
  assert (Hiff : recency_bonus parse now a = 5%Z <->
                 exists c, created = Some (Aware c) /\ (now - c < day_us)%Z).
  { unfold recency_bonus. fold created.
    destruct created as [[c|c]|].
    - split; [discriminate | intros [c' [H _]]; discriminate].
    - destruct (now - c <? day_us)%Z eqn:E.
      + apply Z.ltb_lt in E. split; [intros _; eauto | reflexivity].
      + apply Z.ltb_ge in E. split; [discriminate|].
        intros [c' [H Hlt]]. inversion H; subst. lia.
    - split; [discriminate | intros [c' [H _]]; discriminate]. }
  split; [|split; [|split; [|split; [|split; [|split; [|split; [|split;
    [|split; [|split; [exact Hiff|split]]]]]]]]]];
    try reflexivity.
  - unfold _score_article_importance. rewrite !sum_if_in_hits.
    rewrite article_text_lower. fold (joined_text a). fold text. lia.
  - intros w. apply str_in_iff.
  - intros c Hc. unfold recency_bonus. fold created. rewrite Hc. split; intros H.
    + apply Z.ltb_lt in H. now rewrite H.
    + apply Z.ltb_ge in H. now rewrite H.
  - intros Hc. unfold recency_bonus. fold created. now rewrite Hc.
  - intros c Hc. unfold recency_bonus. fold created. now rewrite Hc.
  - unfold recency_bonus. destruct (parse _) as [[c|c]|]; auto.
    destruct (now - c <? day_us)%Z; auto.
  - repeat split; vm_compute; reflexivity.
Qed.

(** ** Stable descending sort *)

Lemma insert_desc_perm : forall (A : Type) (lt : A -> A -> bool) x l,
  Permutation (insert_desc lt x l) (x :: l).
Proof.
  intros A lt x l; induction l as [|y r IH]; simpl; [reflexivity|].
  destruct (lt x y); [|reflexivity].
  rewrite IH. apply perm_swap.
Qed.

Lemma sort_desc_perm : forall (A : Type) (lt : A -> A -> bool) l,
  Permutation (sort_desc lt l) l.
Proof.
  intros A lt l; induction l as [|x l IH]; simpl; [reflexivity|].
  rewrite insert_desc_perm. now constructor.
Qed.

Lemma insert_desc_sorted : forall x l,
  StronglySorted desc l -> StronglySorted desc (insert_desc score_lt x l).
Proof.
  intros x l; induction l as [|y r IH]; intros Hs; simpl.
  - repeat constructor.
  - inversion Hs as [|? ? Hr Hall]; subst.
    unfold score_lt at 1. destruct (snd x <? snd y)%Z eqn:E.
    + apply Z.ltb_lt in E. constructor; [now apply IH|].
      rewrite (insert_desc_perm _ score_lt x r).
      constructor; [unfold desc; lia | exact Hall].
    + apply Z.ltb_ge in E. constructor; [exact Hs|].
      constructor; [exact E|].
      eapply Forall_impl; [|exact Hall]. unfold desc. intros z Hz. lia.
Qed.

Lemma sort_desc_sorted : forall l, StronglySorted desc (sort_desc score_lt l).
Proof.
  induction l as [|x l IH]; simpl; [constructor | now apply insert_desc_sorted].
Qed.

Lemma insert_desc_stable : forall s x l,
  filter (has_score s) (insert_desc score_lt x l) =
  filter (has_score s) (x :: l).
Proof.
  intros s x l; induction l as [|y r IH]; [reflexivity|].
  cbn [insert_desc]. unfold score_lt at 1.
  destruct (snd x <? snd y)%Z eqn:E; [|reflexivity].
  apply Z.ltb_lt in E. cbn [filter] in *. rewrite IH. unfold has_score.
  destruct (snd x =? s)%Z eqn:Ex; destruct (snd y =? s)%Z eqn:Ey; try reflexivity.
  apply Z.eqb_eq in Ex, Ey. lia.
Qed.

Lemma sort_desc_stable : forall s l,
  filter (has_score s) (sort_desc score_lt l) = filter (has_score s) l.
Proof.
  intros s l; induction l as [|x l IH]; [reflexivity|].
  cbn [sort_desc fold_right]. fold (sort_desc score_lt l).
  rewrite insert_desc_stable. cbn [filter]. now rewrite IH.
Qed.



Lemma has_score_own : forall x, has_score (snd x) x = true.
Proof. intros x. unfold has_score. apply Z.eqb_refl. Qed.

Lemma sorted_head_max : forall x l y,
  StronglySorted desc (x :: l) -> In y (x :: l) -> (snd y <= snd x)%Z.
Proof.
  intros x l y Hs Hin. inversion Hs as [|? ? _ Hall]; subst.
  destruct Hin as [->|Hin]; [lia|].
  rewrite Forall_forall in Hall. now apply Hall.
Qed.

(** A descending list is determined by its entries of each score, taken in
    order: the sort above is the only stable descending arrangement. *)
Lemma sorted_stable_unique : forall l1 l2,
  StronglySorted desc l1 -> StronglySorted desc l2 ->
  (forall s, filter (has_score s) l1 = filter (has_score s) l2) ->
  l1 = l2.
Proof.
  induction l1 as [|x r1 IH]; intros l2 S1 S2 H.
  - destruct l2 as [|y r2]; [reflexivity|].
    specialize (H (snd y)). cbn [filter] in H.
    rewrite has_score_own in H. discriminate.
  - destruct l2 as [|y r2].
    { specialize (H (snd x)). cbn [filter] in H.
      rewrite has_score_own in H. discriminate. }
    assert (Hxy : (snd x <= snd y)%Z).
    { apply (sorted_head_max y r2 x S2).
      assert (Hin : In x (filter (has_score (snd x)) (x :: r1)))
        by (apply filter_In; split; [now left | apply has_score_own]).
      rewrite H in Hin. now apply filter_In in Hin. }
    assert (Hyx : (snd y <= snd x)%Z).
    { apply (sorted_head_max x r1 y S1).
      assert (Hin : In y (filter (has_score (snd y)) (y :: r2)))
        by (apply filter_In; split; [now left | apply has_score_own]).
      rewrite <- H in Hin. now apply filter_In in Hin. }
    assert (Heq : snd x = snd y) by lia.
    assert (Hhead : x = y).
    { pose proof (H (snd x)) as Hx. cbn [filter] in Hx.
      rewrite has_score_own in Hx. rewrite Heq in Hx at 2.
      rewrite has_score_own in Hx. now inversion Hx. }
    subst y. f_equal.
    inversion S1; inversion S2; subst.
    apply IH; try assumption.
    intros s. specialize (H s). cbn [filter] in H.
    destruct (has_score s x); [now inversion H | exact H].
Qed.

(** Any stable descending arrangement of [l] is the list the sort gives. *)
Lemma sort_desc_characterised : forall l l',
  StronglySorted desc l' ->
  (forall s, filter (has_score s) l' = filter (has_score s) l) ->
  l' = sort_desc score_lt l.
Proof.
  intros l l' Hs Hst. apply sorted_stable_unique.
  - exact Hs.
  - apply sort_desc_sorted.
  - intros s. now rewrite Hst, sort_desc_stable.
Qed.

(** ** Extractor *)

Lemma score_articles_fst : forall parse clock articles n,
  map fst (score_articles parse clock n articles) = articles.
Proof.
  induction articles as [|a r IH]; intros n; simpl; [reflexivity | now rewrite IH].
Qed.

Lemma extract_from_get : forall parse clock limit themes n acc t,
  wf themes ->
  get (extract_from parse clock n themes limit acc) t =
  match get themes t with
  | Some (a :: l) =>
      Some (top_stories limit
              (score_articles parse clock (n + calls_before themes t) (a :: l)))
  | _ => get acc t
  end.
Proof.
  intros parse clock limit themes.
  induction themes as [|[k arts] rest IH]; intros n acc t Hwf; [reflexivity|].
  unfold wf in Hwf; simpl in Hwf. inversion Hwf as [|? ? Hnot Hnd]; subst.
  assert (Hk : get rest k = None) by (apply get_none_iff; exact Hnot).
  cbn [extract_from get calls_before].
  destruct arts as [|a l].
  - rewrite (IH n acc t Hnd). destruct (String.eqb t k) eqn:E.
    + apply String.eqb_eq in E; subst t. now rewrite Hk.
    + reflexivity.
  - rewrite (IH (n + length (a :: l)) _ t Hnd). destruct (String.eqb t k) eqn:E.
    + apply String.eqb_eq in E; subst t. rewrite Hk, get_set_same.
      now rewrite Nat.add_0_r.
    + apply String.eqb_neq in E. rewrite (get_set_other _ _ _ _ _ E).
      now rewrite Nat.add_assoc.
Qed.




(** ** Logged computations *)

Lemma result_bind : forall (A B : Type) (m : IO A) (k : A -> IO B),
  result (bind m k) = result (k (result m)).
Proof.
  intros A B [x t1] k. unfold result, bind; simpl. now destruct (k x).
Qed.

Lemma trace_bind : forall (A B : Type) (m : IO A) (k : A -> IO B),
  trace (bind m k) = trace m ++ trace (k (result m)).
Proof.
  intros A B [x t1] k. unfold trace, result, bind; simpl. now destruct (k x).
Qed.

Lemma io_eta : forall (A : Type) (m : IO A), m = (result m, trace m).
Proof. now intros A [x t]. Qed.

(** ** Market performance aggregator *)

Lemma last_binding_in : forall (X : Type) (items : list (string * X)) t,
  In t (keys items) <-> exists x, last_binding items t = Some x.
Proof.
  induction items as [|[k x] rest IH]; intros t; simpl.
  - split; [contradiction | intros [x H]; discriminate].
  - split.
    + intros [H|H].
      * subst k. rewrite String.eqb_refl. destruct (last_binding rest t); eauto.
      * apply IH in H. destruct H as [x' H]. rewrite H. eauto.
    + intros [x' H]. destruct (last_binding rest t) eqn:E.
      * right. apply IH. eauto.
      * destruct (String.eqb t k) eqn:Ek; [|discriminate].
        apply String.eqb_eq in Ek. auto.
Qed.

Lemma fetch_group_get : forall (X V : Type) svc s e (entry : X -> Perf -> V)
  items data t,
  get (result (fetch_group svc s e entry items data)) t =
  match performance (yf_history svc t s (e + 1)), last_binding items t with
  | Some p, Some x => Some (entry x p)
  | _, _ => get data t
  end.
Proof.
  intros X V svc s e entry items.
  induction items as [|[k x] rest IH]; intros data t.
  - simpl. now destruct (performance _).
  - cbn [fetch_group]. rewrite result_bind, IH. unfold fetch_history.
    rewrite result_bind. cbn [ret result fst last_binding].
    destruct (String.eqb t k) eqn:Ek.
    + apply String.eqb_eq in Ek; subst k.
      destruct (performance (yf_history svc t s (e + 1))) as [p|]; [|reflexivity].
      rewrite get_set_same. now destruct (last_binding rest t).
    + apply String.eqb_neq in Ek.
      destruct (performance (yf_history svc t s (e + 1))) as [p|] eqn:Ep.
      * destruct (last_binding rest t); [reflexivity|].
        destruct (performance (yf_history svc k s (e + 1)));
          [now apply get_set_other | reflexivity].
      * destruct (performance (yf_history svc k s (e + 1)));
          [now apply get_set_other | reflexivity].
Qed.

Lemma fetch_group_trace : forall (X V : Type) svc s e (entry : X -> Perf -> V)
  items data,
  trace (fetch_group svc s e entry items data) =
  map (fun t => EvHistory t s (e + 1)) (keys items).
Proof.
  intros X V svc s e entry items.
  induction items as [|[k x] rest IH]; intros data; [reflexivity|].
  cbn [fetch_group]. rewrite trace_bind, IH. reflexivity.
Qed.

Lemma market_data_shape : forall cfg svc s e,
  result (get_market_data_by_range cfg svc s e) =
  set (set (index_data cfg svc s e) "sectors" (MSectors (sector_data cfg svc s e)))
      "stocks" (MStocks (stock_data cfg svc s e)).
Proof.
  intros. unfold get_market_data_by_range. now rewrite !result_bind.
Qed.

Lemma keys_unit_items : forall l : list string,
  keys (map (fun t => (t, tt)) l) = l.
Proof.
  induction l as [|x l IH]; simpl; [reflexivity | now rewrite IH].
Qed.

Lemma market_data_trace : forall cfg svc s e,
  trace (get_market_data_by_range cfg svc s e) =
  map (fun t => EvHistory t s (e + 1))
      (keys (market_indices cfg) ++ keys (sector_etfs cfg)
       ++ major_stocks cfg ++ sea_stocks cfg).
Proof.
  intros. unfold get_market_data_by_range.
  rewrite !trace_bind, !fetch_group_trace. cbn [ret trace snd].
  rewrite keys_unit_items, app_nil_r, !map_app. reflexivity.
Qed.

Lemma stock_items_binding : forall stocks t,
  In t stocks <-> exists x, last_binding (map (fun t => (t, tt)) stocks) t = Some x.
Proof.
  intros stocks t. rewrite <- last_binding_in. now rewrite keys_unit_items.
Qed.

Lemma get_index_md : forall cfg svc s e t,
  t <> "sectors" -> t <> "stocks" ->
  get (result (get_market_data_by_range cfg svc s e)) t =
  get (index_data cfg svc s e) t.
Proof.
  intros. rewrite market_data_shape. now rewrite !get_set_other.
Qed.

Lemma get_sectors_md : forall cfg svc s e,
  get (result (get_market_data_by_range cfg svc s e)) "sectors" =
  Some (MSectors (sector_data cfg svc s e)).
Proof.
  intros. rewrite market_data_shape.
  rewrite get_set_other by discriminate. apply get_set_same.
Qed.

Lemma get_stocks_md : forall cfg svc s e,
  get (result (get_market_data_by_range cfg svc s e)) "stocks" =
  Some (MStocks (stock_data cfg svc s e)).
Proof. intros. rewrite market_data_shape. apply get_set_same. Qed.

Lemma last_indep : forall (A : Type) (l : list A) d d',
  l <> [] -> last l d = last l d'.
Proof.
  induction l as [|x l IH]; intros d d' H; [contradiction|].
  destruct l as [|y l]; [reflexivity|]. cbn [last]. apply IH. discriminate.
Qed.

Lemma performance_history : forall closes,
  performance (History closes) =
  if 2 <=? length closes
  then Some (mkPerf (hd 0%float closes) (last closes 0%float)
               (change_pct (hd 0%float closes) (last closes 0%float)))
  else None.
Proof.
  intros [|c closes]; [reflexivity|].
  cbn [performance hd]. destruct (2 <=? length (c :: closes)); [|reflexivity].
  now rewrite (last_indep _ (c :: closes) c 0%float) by discriminate.
Qed.

Lemma index_change_spec : forall cfg svc s e t,
  index_change (result (get_market_data_by_range cfg svc s e)) t =
  if in_group_keys t then None
  else match performance (yf_history svc t s (e + 1)),
             last_binding (market_indices cfg) t with
       | Some p, Some _ => Some (round2 (p_change_pct p))
       | _, _ => None
       end.
Proof.
  intros cfg svc s e t. unfold index_change, in_group_keys.
  destruct (String.eqb t "sectors") eqn:E1.
  { apply String.eqb_eq in E1; subst. now rewrite get_sectors_md. }
  destruct (String.eqb t "stocks") eqn:E2.
  { apply String.eqb_eq in E2; subst. now rewrite get_stocks_md. }
  apply String.eqb_neq in E1, E2. rewrite get_index_md by assumption.
  unfold index_data. rewrite fetch_group_get.
  destruct (performance _); [|reflexivity].
  now destruct (last_binding _ _).
Qed.

Lemma sector_change_spec : forall cfg svc s e t,
  sector_change (result (get_market_data_by_range cfg svc s e)) t =
  match performance (yf_history svc t s (e + 1)),
        last_binding (sector_etfs cfg) t with
  | Some p, Some _ => Some (round2 (p_change_pct p))
  | _, _ => None
  end.
Proof.
  intros cfg svc s e t. unfold sector_change. rewrite get_sectors_md.
  unfold sector_data. rewrite fetch_group_get.
  destruct (performance _); [|reflexivity].
  now destruct (last_binding _ _).
Qed.

Lemma stock_change_spec : forall cfg svc s e t,
  stock_change (result (get_market_data_by_range cfg svc s e)) t =
  match performance (yf_history svc t s (e + 1)),
        last_binding (map (fun t => (t, tt)) (major_stocks cfg ++ sea_stocks cfg)) t with
  | Some p, Some _ => Some (round2 (p_change_pct p))
  | _, _ => None
  end.
Proof.
  intros cfg svc s e t. unfold stock_change. rewrite get_stocks_md.
  unfold stock_data. rewrite fetch_group_get.
  destruct (performance _); [|reflexivity].
  now destruct (last_binding _ _).
Qed.

Lemma in_whole_closes : forall n z,
  (1 <= z <= Z.of_nat n)%Z -> In z (whole_closes n).
Proof.
  intros n z H. unfold whole_closes. apply in_map_iff.
  exists (Z.to_nat z). split; [lia|]. apply in_seq. lia.
Qed.

Lemma change_agrees_on_grid : forall a b : Z,
  (1 <= a <= 100)%Z -> (1 <= b <= 100)%Z ->
  PrimFloat.eqb (round2 (change_pct (float_of_Z a) (float_of_Z b)))
                (float_of_Z (exact_hundredths a b) / 100)%float = true.
Proof.
  assert (H : forallb (fun a => forallb (change_agrees a) (whole_closes 100))
                      (whole_closes 100) = true) by (vm_compute; reflexivity).
  intros a b Ha Hb. rewrite forallb_forall in H.
  specialize (H a (in_whole_closes 100 a Ha)). rewrite forallb_forall in H.
  exact (H b (in_whole_closes 100 b Hb)).
Qed.

(** C1.  An instrument whose history has at least two closes gets, in its
    group, the change [(end - start) / start * 100] of the first and the last
    close rounded to two decimals (10.00 for 100 and 110, 2.50 for 4000 and
    4100); an instrument whose history is empty or has one close gets no
    entry in any group.  The change is signed and really rounded: 3 to 4
    gives 33.33, 3 to 5 gives 66.67, 110 to 100 gives -9.09, 3 to 1 gives
    -66.67, and a value half-way between two hundredths goes to the even
    one; in a run with one instrument per group the closes in between do not
    count and the stock with one close is left out.  For all whole closes
    from 1 to 100 the recorded value is the exactly computed percentage
    rounded to two decimals; the rounding is applied to the binary64
    quotient, so further out an exact tie can be tipped (160 to 67 is
    -58.125 exactly and is recorded as -58.13). *)
Theorem change_pct_recorded :
  forall (cfg : Config) (svc : Services) (s e : Z) (t : string)
         (closes : list float),
  yf_history svc t s (e + 1) = History closes ->
  let md := result (get_market_data_by_range cfg svc s e) in
  let pct := round2 (change_pct (hd 0%float closes) (last closes 0%float)) in
  (2 <= length closes ->
     (In t (keys (market_indices cfg)) -> t <> "sectors" -> t <> "stocks" ->
        index_change md t = Some pct) /\
     (In t (keys (sector_etfs cfg)) -> sector_change md t = Some pct) /\
     (In t (major_stocks cfg ++ sea_stocks cfg) -> stock_change md t = Some pct)) /\
  (length closes < 2 ->
     index_change md t = None /\ sector_change md t = None /\
     stock_change md t = None) /\
  round2 (change_pct 100 110) = 10%float /\
  round2 (change_pct 4000 4100) = 2.5%float /\
  result (get_market_data_by_range
            (mkConfig [("^GSPC", "S&P 500")] [] [] [])
            (services_of (fun _ _ _ => History [4000; 4100]%float)
                         (fun _ => NewsList []) (fun _ => ChatContent "ok"))
            s e)
  = [("^GSPC", MIndex (mkIndexEntry "S&P 500" 4100 2.5 4000));
     ("sectors", MSectors []); ("stocks", MStocks [])] /\
  round2 (change_pct 3 4) = 33.33%float /\
  round2 (change_pct 3 5) = 66.67%float /\
  round2 (change_pct 110 100) = (-9.09)%float /\
  round2 (change_pct 3 1) = (-66.67)%float /\
  change_pct 100 110 = 10%float /\
  PrimFloat.ltb (change_pct 110 100) 0 = true /\
  round2 0.125 = 0.12%float /\
  round2 0.375 = 0.38%float /\
  round2 (-0.125) = (-0.12)%float /\
  round2 4.98765 = 4.99%float /\
  round2 3.14159 = 3.14%float /\
  result (get_market_data_by_range mixed_config mixed_prices s e)
  = [("^GSPC", MIndex (mkIndexEntry "S&P 500" 4.99 58.76 3.14));
     ("sectors", MSectors [("XLK", mkSectorEntry "Technology" (-9.09))]);
     ("stocks", MStocks [("AAPL", mkStockEntry 33.33 4)])] /\
  (forall a b : Z, (1 <= a <= 100)%Z -> (1 <= b <= 100)%Z ->
     PrimFloat.eqb (round2 (change_pct (float_of_Z a) (float_of_Z b)))
                   (float_of_Z (exact_hundredths a b) / 100)%float = true) /\
  round2 (change_pct 160 67) = (-58.13)%float.
Proof.
  intros cfg svc s e t closes Hh md pct. unfold md.
  split; [|split; [|repeat (split; [reflexivity|])]];
    [ | |split; [apply change_agrees_on_grid | reflexivity]].
  - intros Hlen. apply Nat.leb_le in Hlen.
    split; [|split].
    + intros Hin H1 H2. rewrite index_change_spec. unfold in_group_keys.
      apply String.eqb_neq in H1, H2. rewrite H1, H2. cbn [orb].
      rewrite Hh, performance_history, Hlen.
      apply last_binding_in in Hin. destruct Hin as [x Hx]. now rewrite Hx.
    + intros Hin. rewrite sector_change_spec, Hh, performance_history, Hlen.
      apply last_binding_in in Hin. destruct Hin as [x Hx]. now rewrite Hx.
    + intros Hin. rewrite stock_change_spec, Hh, performance_history, Hlen.
      apply stock_items_binding in Hin. destruct Hin as [x Hx]. now rewrite Hx.
  - intros Hlen. assert (Hle : (2 <=? length closes) = false)
      by (apply Nat.leb_gt; exact Hlen).
    rewrite index_change_spec, sector_change_spec, stock_change_spec.
    rewrite Hh, performance_history, Hle.
    repeat split. now destruct (in_group_keys t).
Qed.

(** The default configuration with a provider that gives every ticker the
    closes 3 and 4. *)
Lemma change_pct_recorded_witness :
  index_change
    (result (get_market_data_by_range _setup_market_config
               (services_of (fun _ _ _ => History [3; 4]%float)
                            (fun _ => NewsList []) (fun _ => ChatContent "ok"))
               0 7))
    "^GSPC" = Some 33.33%float.
Proof.
  pose proof (change_pct_recorded _setup_market_config
                (services_of (fun _ _ _ => History [3; 4]%float)
                             (fun _ => NewsList []) (fun _ => ChatContent "ok"))
                0%Z 7%Z "^GSPC" [3; 4]%float eq_refl) as H.
  cbv zeta in H. destruct H as [H _].
  assert (Hlen : 2 <= length [3; 4]%float) by (simpl; lia).
  destruct (H Hlen) as [Hidx _].
  rewrite Hidx.
  - reflexivity.
  - simpl. tauto.
  - discriminate.
  - discriminate.
Defined.

Lemma mem_fetch_group : forall (X V : Type) svc s e (entry : X -> Perf -> V)
  items t,
  mem (result (fetch_group svc s e entry items [])) t = true <->
  In t (keys items) /\ succeeded svc s e t = true.
Proof.
  intros. unfold mem, succeeded. rewrite fetch_group_get, last_binding_in.
  destruct (performance _); destruct (last_binding items t); simpl;
    (split;
     [ intros H; try discriminate H; split; eauto
     | intros [[x' Hx] H2]; try discriminate Hx; try discriminate H2; reflexivity ]).
Qed.

Lemma fetch_group_all_fail : forall (X V : Type) svc s e (entry : X -> Perf -> V)
  items data,
  (forall t, In t (keys items) -> succeeded svc s e t = false) ->
  result (fetch_group svc s e entry items data) = data.
Proof.
  intros X V svc s e entry items.
  induction items as [|[k x] rest IH]; intros data H; [reflexivity|].
  cbn [fetch_group]. rewrite result_bind. unfold fetch_history.
  rewrite result_bind. cbn [ret result fst].
  assert (Hk : succeeded svc s e k = false) by (apply H; simpl; auto).
  unfold succeeded in Hk.
  destruct (performance (yf_history svc k s (e + 1))); [discriminate|].
  apply IH. intros t Ht. apply H. simpl; auto.
Qed.

(** C5.  A failing or too short history of one instrument is a soft
    failure.  The run returns a snapshot whatever the provider does: it asks
    for every configured instrument in turn, whether or not an earlier one
    failed; each group holds exactly the configured instruments whose fetch
    succeeded; the keys [sectors] and [stocks] are always there, with empty
    dictionaries when every instrument fails; with three indices of which
    one raises, exactly the two others are recorded. *)
Theorem soft_failures :
  forall (cfg : Config) (svc : Services) (s e : Z),
  let run := get_market_data_by_range cfg svc s e in
  let md := result run in
  (trace run =
     map (fun t => EvHistory t s (e + 1))
         (keys (market_indices cfg) ++ keys (sector_etfs cfg)
          ++ major_stocks cfg ++ sea_stocks cfg)) /\
  (forall t, yf_history svc t s (e + 1) = Raised -> succeeded svc s e t = false) /\
  (forall t closes, yf_history svc t s (e + 1) = History closes ->
     (succeeded svc s e t = true <-> 2 <= length closes)) /\
  (exists sectors stocks,
     get md "sectors" = Some (MSectors sectors) /\
     get md "stocks" = Some (MStocks stocks) /\
     (forall t, mem sectors t = true <->
                In t (keys (sector_etfs cfg)) /\ succeeded svc s e t = true) /\
     (forall t, mem stocks t = true <->
                In t (major_stocks cfg ++ sea_stocks cfg) /\
                succeeded svc s e t = true)) /\
  (forall t, t <> "sectors" -> t <> "stocks" ->
     (mem md t = true <->
      In t (keys (market_indices cfg)) /\ succeeded svc s e t = true)) /\
  ((forall t, succeeded svc s e t = false) ->
     md = [("sectors", MSectors []); ("stocks", MStocks [])]) /\
  keys (result (get_market_data_by_range three_indices dow_fails s e))
  = ["^GSPC"; "^IXIC"; "sectors"; "stocks"].
Proof.
  intros cfg svc s e run md. subst md run.
  split; [apply market_data_trace|].
  split; [intros t H; unfold succeeded; now rewrite H|].
  split.
  { intros t closes H. unfold succeeded. rewrite H, performance_history.
    destruct (2 <=? length closes) eqn:E.
    - apply Nat.leb_le in E. tauto.
    - apply Nat.leb_gt in E. split; [discriminate | lia]. }
  split.
  { exists (sector_data cfg svc s e), (stock_data cfg svc s e).
    split; [apply get_sectors_md|]. split; [apply get_stocks_md|].
    split; intros t.
    - apply mem_fetch_group.
    - unfold stock_data. rewrite mem_fetch_group. now rewrite keys_unit_items. }
  split.
  { intros t H1 H2. unfold mem. rewrite get_index_md by assumption.
    apply mem_fetch_group. }
  split; [|reflexivity].
  intros H. rewrite market_data_shape. unfold index_data, sector_data, stock_data.
  rewrite !fetch_group_all_fail by (intros; apply H). reflexivity.
Qed.

(** ** Date validation *)

(** With the later date first the aggregator still asks the provider for all
    53 instruments of the default configuration and returns a snapshot. *)
Lemma aggregator_accepts_reversed_range :
  let run := get_market_data_by_range _setup_market_config
               (services_of (fun _ _ _ => History [100; 110]%float)
                            (fun _ => NewsList []) (fun _ => ChatContent "ok"))
               20 10 in
  length (trace run) = 53 /\
  index_change (result run) "^GSPC" = Some 10%float /\
  length (result run) = 22.
Proof. cbv zeta. repeat split; vm_compute; reflexivity. Qed.

Lemma main_bad_range : forall gen svc inp,
  (in_end_date inp <= in_start_date inp)%Z ->
  main gen svc inp =
  (DateError, [EvErrorBox "Date Error: Start date must be before end date."]).
Proof.
  intros gen svc inp H. unfold main. apply Z.leb_le in H. now rewrite H.
Qed.

Lemma main_good_range : forall gen svc inp,
  (in_start_date inp < in_end_date inp)%Z ->
  main gen svc inp =
  if in_generate_button inp then pipeline gen svc inp else ret NotRequested.
Proof.
  intros gen svc inp H. unfold main.
  assert (E : (in_end_date inp <=? in_start_date inp)%Z = false)
    by (apply Z.leb_gt; exact H).
  now rewrite E.
Qed.

Lemma pipeline_result : forall gen svc inp,
  result (pipeline gen svc inp) <> DateError.
Proof.
  intros gen svc inp. unfold pipeline. rewrite !result_bind.
  destruct (result (get_articles_by_date_range _ _ _ _)) as [|a l].
  - rewrite result_bind. discriminate.
  - rewrite !result_bind. discriminate.
Qed.

(** C6, as the program has it.  The check of the dates is in [main], before
    any work: when the start is not before the end, [main] shows the date
    error and stops, with no call to any service; when the start is before
    the end it does not stop for that reason.  The aggregator has no check of
    its own: for every pair of dates it asks the provider for every
    instrument. *)
Theorem range_checked_by_main :
  forall (gen : Generator) (svc : Services) (inp : Inputs),
  ((in_end_date inp <= in_start_date inp)%Z ->
     main gen svc inp =
     (DateError, [EvErrorBox "Date Error: Start date must be before end date."])) /\
  ((in_start_date inp < in_end_date inp)%Z ->
     result (main gen svc inp) <> DateError) /\
  (forall cfg s e,
     trace (get_market_data_by_range cfg svc s e) =
     map (fun t => EvHistory t s (e + 1))
         (keys (market_indices cfg) ++ keys (sector_etfs cfg)
          ++ major_stocks cfg ++ sea_stocks cfg)).
Proof.
  intros gen svc inp. split; [apply main_bad_range|]. split.
  - intros H. rewrite (main_good_range gen svc inp H).
    destruct (in_generate_button inp); [apply pipeline_result | discriminate].
  - intros. apply market_data_trace.
Qed.

(** Equal dates: the date error and nothing else. *)
Lemma range_checked_by_main_witness :
  main sample_generator quiet_services (mkInputs 7 7 "English" 3 true) =
  (DateError, [EvErrorBox "Date Error: Start date must be before end date."]).
Proof.
  apply (proj1 (range_checked_by_main sample_generator quiet_services
                  (mkInputs 7 7 "English" 3 true))).
  simpl. lia.
Defined.

(** ** Report generation *)

(** A failure of the language service and an answer with the same words give
    the caller the same value, in the builder and at the end of [main]. *)
Lemma report_failure_is_report_text :
  result (generate_market_report chat_fails [] [] 0 7) =
  result (generate_market_report chat_says_error_text [] [] 0 7) /\
  result (generate_market_report chat_fails [] [] 0 7) =
  "Error generating market report" /\
  result (main sample_generator chat_fails sample_inputs) =
  result (main sample_generator chat_says_error_text sample_inputs) /\
  (exists rd, result (main sample_generator chat_fails sample_inputs) = Stored rd /\
              rd_content rd = "Error generating market report").
Proof.
  split; [vm_compute; reflexivity|].
  split; [vm_compute; reflexivity|].
  split; [vm_compute; reflexivity|].
  eexists. split; [vm_compute; reflexivity | reflexivity].
Qed.

(** C7, as the program has it.  When the language service fails during the
    synthesis, the builder shows the error, returns the fixed text
    [Error generating market report] as its report, and has called the
    service once. *)
Theorem report_failure_fixed_text :
  forall (svc : Services) (md : MarketData) (ks : Themes) (s e : Z) (msg : string),
  openai_chat svc (report_request svc md ks s e) = ChatRaised msg ->
  generate_market_report svc md ks s e =
  (report_error_text,
   [EvChat (report_request svc md ks s e);
    EvStError ("OpenAI API error: " ++ msg)%string]).
Proof.
  intros svc md ks s e msg H. unfold generate_market_report.
  rewrite H. reflexivity.
Qed.

Lemma report_failure_fixed_text_witness :
  generate_market_report chat_fails [] [] 0 7 =
  (report_error_text,
   [EvChat (report_request chat_fails [] [] 0 7);
    EvStError "OpenAI API error: timed out"]).
Proof.
  apply (report_failure_fixed_text chat_fails [] [] 0%Z 7%Z "timed out").
  reflexivity.
Defined.

(** ** News fetch *)

(** An error of the news provider and an empty answer give the caller the
    same list, and [main] ends the same way. *)
Lemma news_error_is_empty_result :
  result (get_articles_by_date_range "token" news_fails 0 7) = [] /\
  result (get_articles_by_date_range "token" quiet_services 0 7) = [] /\
  result (main sample_generator news_fails sample_inputs) = NoArticles /\
  result (main sample_generator quiet_services sample_inputs) = NoArticles.
Proof. repeat split; vm_compute; reflexivity. Qed.

Lemma no_chat_in_history_events : forall s e r tickers,
  ~ In (EvChat r) (map (fun t => EvHistory t s e) tickers).
Proof.
  intros s e r tickers H. apply in_map_iff in H. destruct H as [t [H _]].
  discriminate.
Qed.

Lemma news_request_trace : forall svc req r,
  ~ In (EvChat r) (trace (_make_benzinga_request svc req)).
Proof.
  intros svc req r. unfold _make_benzinga_request.
  rewrite trace_bind. cbn [emit trace snd result fst].
  destruct (benzinga svc req); simpl; intros H;
    repeat destruct H as [H|H]; try discriminate; auto.
Qed.

(** C8, as the program has it.  An error raised by the news request is
    caught where the request is made, shown, and turned into the empty list,
    the value an empty answer gives; an empty list stops the pipeline with
    the outcome [NoArticles] before any call to the language service. *)
Theorem news_error_becomes_no_articles :
  forall (gen : Generator) (svc : Services) (inp : Inputs),
  let s := in_start_date inp in
  let e := in_end_date inp in
  let req := mkNewsRequest "/v2/news" 200 "full" s e (benzinga_key gen) in
  let fetch := get_articles_by_date_range (benzinga_key gen) svc s e in
  (forall msg, benzinga svc req = NewsRaised msg ->
     fetch = ([], [EvNews req; EvStError ("Benzinga API error: " ++ msg)%string])) /\
  (benzinga svc req = NewsList [] -> fetch = ([], [EvNews req])) /\
  ((s < e)%Z -> in_generate_button inp = true -> result fetch = [] ->
     result (main gen svc inp) = NoArticles /\
     forall r, ~ In (EvChat r) (trace (main gen svc inp))).
Proof.
  intros gen svc inp s e req fetch. subst fetch req s e.
  split.
  { intros msg H. unfold get_articles_by_date_range, _make_benzinga_request.
    rewrite H. reflexivity. }
  split.
  { intros H. unfold get_articles_by_date_range, _make_benzinga_request.
    rewrite H. reflexivity. }
  intros Hlt Hb Hempty. rewrite (main_good_range gen svc inp Hlt), Hb.
  unfold pipeline. split.
  - rewrite result_bind, result_bind, Hempty. reflexivity.
  - intros r. rewrite trace_bind, market_data_trace, trace_bind, Hempty.
    intros H. apply in_app_or in H. destruct H as [H|H].
    + now apply no_chat_in_history_events in H.
    + apply in_app_or in H. destruct H as [H|H].
      * now apply (news_request_trace svc _ r) in H.
      * simpl in H. destruct H as [H|[]]. discriminate.
Qed.

Lemma news_error_becomes_no_articles_witness :
  result (main sample_generator news_fails sample_inputs) = NoArticles.
Proof.
  pose proof (news_error_becomes_no_articles sample_generator news_fails
                sample_inputs) as H.
  cbv zeta in H. destruct H as [_ [_ H]].
  apply H; [simpl; lia | reflexivity | reflexivity].
Defined.

(** ** Translator *)

(** C9.  For the target [English] the translator returns the text as it is
    and calls nothing.  For another target, a failing call gives back the
    text that came in, after one call and with the error shown; so does a
    target the program has no name for, with no call at all; the returned
    text differs from the input only when a call succeeded. *)
Theorem translator_fallback :
  forall (svc : Services) (content : string),
  translate_content svc content "English" = (content, []) /\
  (forall target language msg,
     target <> "English" ->
     get language_map target = Some language ->
     openai_chat svc (translation_request language content) = ChatRaised msg ->
     translate_content svc content target =
     (content, [EvChat (translation_request language content);
                EvStError ("Translation error: " ++ msg)%string])) /\
  (forall target,
     target <> "English" -> get language_map target = None ->
     result (translate_content svc content target) = content /\
     forall r, ~ In (EvChat r) (trace (translate_content svc content target))) /\
  (forall target,
     result (translate_content svc content target) = content \/
     exists language translated,
       target <> "English" /\
       get language_map target = Some language /\
       openai_chat svc (translation_request language content)
         = ChatContent translated /\
       result (translate_content svc content target) = strip translated).
Proof.
  intros svc content. split; [reflexivity|]. split; [|split].
  - intros target language msg Hne Hl Hf. unfold translate_content.
    apply String.eqb_neq in Hne. rewrite Hne, Hl, Hf. reflexivity.
  - intros target Hne Hl. unfold translate_content.
    apply String.eqb_neq in Hne. rewrite Hne, Hl. split; [reflexivity|].
    intros r H. simpl in H. destruct H as [H|[]]. discriminate.
  - intros target. unfold translate_content.
    destruct (String.eqb target "English") eqn:E; [left; reflexivity|].
    apply String.eqb_neq in E.
    destruct (get language_map target) as [language|] eqn:Hl; [|left; reflexivity].
    destruct (openai_chat svc (translation_request language content))
      as [msg|translated] eqn:Hc; [left; reflexivity|].
    right. exists language, translated. auto.
Qed.

(** A failing call for Thai. *)
Lemma translator_fallback_witness :
  translate_content chat_fails "The report" "Thai" =
  ("The report",
   [EvChat (translation_request "Thai" "The report");
    EvStError "Translation error: timed out"]).
Proof.
  apply (proj1 (proj2 (translator_fallback chat_fails "The report"))).
  - discriminate.
  - reflexivity.
  - reflexivity.
Defined.

(** ** News summary *)

Lemma entry_heads_of_theme : forall theme articles,
  length (filter is_entry_head (theme_lines theme articles)) =
  Nat.min 3 (length articles).
Proof.
  intros theme [|a1 [|a2 [|a3 rest]]]; reflexivity.
Qed.

Lemma entry_heads_of_summary : forall key_stories : Themes,
  length (filter is_entry_head (news_summary_lines key_stories)) =
  list_sum (map (fun kv => Nat.min 3 (length (snd kv))) key_stories).
Proof.
  induction key_stories as [|[theme articles] rest IH]; [reflexivity|].
  unfold news_summary_lines in *. cbn [flat_map map list_sum fst snd].
  rewrite filter_app, length_app, IH, entry_heads_of_theme. reflexivity.
Qed.

Lemma length_enumerate : forall (A : Type) (l : list A) n,
  length (enumerate n l) = length l.
Proof.
  induction l as [|x l IH]; intros n; simpl; [reflexivity | now rewrite IH].
Qed.

(** C10.  The renderer shows the first three articles of a theme and no
    more: the entries of a theme are its first three articles numbered from
    1, the lines of a theme hold one numbered heading per entry, at most
    three, and so does the whole summary theme by theme.  With five stories
    kept for a theme by a limit of 5, three are shown. *)
Theorem summary_shows_three_per_theme :
  forall (key_stories : Themes) (theme : string) (articles : list Article),
  rendered_entries articles = enumerate 1 (firstn 3 articles) /\
  length (rendered_entries articles) = Nat.min 3 (length articles) /\
  length (rendered_entries articles) <= 3 /\
  length (filter is_entry_head (theme_lines theme articles))
    = Nat.min 3 (length articles) /\
  news_summary_lines ((theme, articles) :: key_stories)
    = theme_lines theme articles ++ news_summary_lines key_stories /\
  length (filter is_entry_head (news_summary_lines key_stories))
    = list_sum (map (fun kv => Nat.min 3 (length (snd kv))) key_stories) /\
  _create_news_summary_with_sources key_stories
    = join_lines (news_summary_lines key_stories) /\
  option_map (@length Article)
    (get (extract_key_stories (fun _ => None) (fun _ => 0%Z) five_stories 5) "other")
    = Some 5 /\
  length (filter is_entry_head
            (news_summary_lines
               (extract_key_stories (fun _ => None) (fun _ => 0%Z) five_stories 5)))
    = 3.
Proof.
  intros key_stories theme articles.
  assert (Hlen : length (rendered_entries articles) = Nat.min 3 (length articles)).
  { unfold rendered_entries. now rewrite length_enumerate, length_firstn. }
  split; [reflexivity|].
  split; [exact Hlen|].
  split; [rewrite Hlen; apply Nat.le_min_l|].
  split; [apply entry_heads_of_theme|].
  split; [reflexivity|].
  split; [apply entry_heads_of_summary|].
  split; [reflexivity|].
  split; vm_compute; reflexivity.
Qed.

(* ================================================================== *)
(** * Further properties *)

(** ** Classifier: buckets *)

Lemma get_map_keys : forall (V : Type) (f : string -> V) ks k,
  get (map (fun k => (k, f k)) ks) k =
  if existsb (String.eqb k) ks then Some (f k) else None.
Proof.
  intros V f ks k; induction ks as [|k0 ks IH]; simpl; [reflexivity|].
  destruct (String.eqb k k0) eqn:E; simpl; [|exact IH].
  apply String.eqb_eq in E. now subst.
Qed.

Lemma keys_map_keys : forall (V : Type) (f : string -> V) ks,
  keys (map (fun k => (k, f k)) ks) = ks.
Proof.
  intros V f ks; induction ks as [|k ks IH]; simpl; [reflexivity | now rewrite IH].
Qed.

Lemma get_categorize : forall articles k,
  get (categorize_news_themes articles) k =
  if existsb (String.eqb k) theme_keys
  then Some (filter (carries k) articles) else None.
Proof.
  intros articles k. rewrite categorize_buckets.
  apply (get_map_keys _ (fun k => filter (carries k) articles)).
Qed.

Lemma in_theme_keys : forall k,
  existsb (String.eqb k) theme_keys = true <-> In k theme_keys.
Proof.
  intros k. rewrite existsb_exists. split.
  - intros [k' [Hin E]]. apply String.eqb_eq in E. now subst.
  - intros H. exists k. split; [exact H | apply String.eqb_refl].
Qed.

Lemma matched_not_unmatched : forall k text,
  matched_by k text = true -> unmatched text = false.
Proof.
  intros k text H. unfold matched_by in H. apply existsb_exists in H.
  destruct H as [r [Hin Hr]]. apply andb_true_iff in Hr. destruct Hr as [_ Hr].
  unfold unmatched. apply negb_false_iff. apply existsb_exists. eauto.
Qed.

(** Every article carries a theme. *)
Lemma article_in_some_bucket : forall a,
  exists k, In k theme_keys /\ carries k a = true.
Proof.
  intros a. destruct (unmatched (article_text a)) eqn:E.
  - exists "other". split; [unfold theme_keys; simpl; tauto|].
    unfold carries; simpl. exact E.
  - unfold unmatched in E. apply negb_false_iff in E.
    apply existsb_exists in E. destruct E as [[k ws] [Hr Hm]]. simpl in Hm.
    exists k. split; [eapply rule_key_is_theme; eauto|].
    now rewrite (carries_rule k ws a Hr).
Qed.

(** The classifier always returns the ten themes in the order of its
    literal; every article of the input lands in at least one bucket; a
    bucket holds nothing but articles of the input; an article in a bucket
    other than [other] is not in [other]. *)
Theorem buckets_cover_articles : forall articles : list Article,
  keys (categorize_news_themes articles) =
    ["earnings"; "fed_policy"; "trade_tensions"; "tech_developments";
     "geopolitical"; "market_movements"; "deals_ma"; "china_sea"; "crypto";
     "other"] /\
  (forall a, In a articles ->
     exists k bucket,
       get (categorize_news_themes articles) k = Some bucket /\ In a bucket) /\
  (forall k bucket a,
     get (categorize_news_themes articles) k = Some bucket ->
     In a bucket -> In a articles) /\
  (forall k bucket rest a,
     k <> "other" ->
     get (categorize_news_themes articles) k = Some bucket ->
     get (categorize_news_themes articles) "other" = Some rest ->
     In a bucket -> ~ In a rest).
Proof.
  intros articles. split; [|split; [|split]].
  - rewrite categorize_buckets.
    apply (keys_map_keys _ (fun k => filter (carries k) articles)).
  - intros a Ha. destruct (article_in_some_bucket a) as [k [Hk Hc]].
    exists k, (filter (carries k) articles). split.
    + rewrite get_categorize. apply in_theme_keys in Hk. now rewrite Hk.
    + apply filter_In. auto.
  - intros k bucket a Hg Hin. rewrite get_categorize in Hg.
    destruct (existsb (String.eqb k) theme_keys); [|discriminate].
    inversion Hg; subst. now apply filter_In in Hin.
  - intros k bucket rest a Hne Hg Ho Hin Hrest.
    rewrite get_categorize in Hg, Ho.
    destruct (existsb (String.eqb k) theme_keys); [|discriminate].
    simpl in Ho. inversion Hg; inversion Ho; subst.
    apply filter_In in Hin. apply filter_In in Hrest.
    destruct Hin as [_ Hk]. destruct Hrest as [_ Hother].
    unfold carries in Hk, Hother. simpl in Hother.
    apply String.eqb_neq in Hne. rewrite Hne in Hk.
    apply matched_not_unmatched in Hk. congruence.
Qed.

(** Classifying a list in two parts and joining the buckets theme by theme
    gives the buckets of the whole list. *)
Theorem classifier_is_incremental :
  forall (first second : list Article) (k : string),
  get (categorize_news_themes (first ++ second)) k =
  match get (categorize_news_themes first) k,
        get (categorize_news_themes second) k with
  | Some b1, Some b2 => Some (b1 ++ b2)
  | _, _ => None
  end.
Proof.
  intros first second k. rewrite !get_categorize.
  destruct (existsb (String.eqb k) theme_keys); [|reflexivity].
  now rewrite filter_app.
Qed.

Lemma lower_upper_char : forall c, lower_char (upper_char c) = lower_char c.
Proof.
  intros [b0 b1 b2 b3 b4 b5 b6 b7].
  destruct b0, b1, b2, b3, b4, b5, b6, b7; reflexivity.
Qed.

Lemma lower_upper : forall s, lower (upper s) = lower s.
Proof.
  induction s as [|c s IH]; simpl; [reflexivity|].
  now rewrite lower_upper_char, IH.
Qed.

Lemma labels_by_text : forall a b,
  article_text a = article_text b -> article_labels a = article_labels b.
Proof.
  intros a b H. rewrite !article_labels_filter. apply filter_ext.
  intros k. unfold carries. now rewrite H.
Qed.

(** Putting the title and the teaser of an article in upper case changes
    neither its themes nor its score. *)
Theorem classifier_and_scorer_ignore_case :
  forall (parse : string -> option DateTime) (now : Z) (a : Article),
  let shouted :=
    mkArticle (option_map upper (a_title a)) (option_map upper (a_teaser a))
              (a_created a) (a_url a) in
  article_labels shouted = article_labels a /\
  _score_article_importance parse now shouted =
  _score_article_importance parse now a.
Proof.
  intros parse now a shouted.
  assert (Ht : article_text shouted = article_text a).
  { unfold article_text, shouted; simpl.
    destruct (a_title a), (a_teaser a); simpl; now rewrite ?lower_upper. }
  split; [now apply labels_by_text|].
  unfold _score_article_importance, recency_bonus. rewrite Ht. reflexivity.
Qed.

(** ** Scorer: bounds *)

Lemma hits_bounds : forall words text,
  (0 <= hits words text <= Z.of_nat (length words))%Z.
Proof.
  intros words text. unfold hits.
  pose proof (filter_length_le (fun w => str_in w text) words). lia.
Qed.

Lemma recency_bonus_range : forall parse now a,
  recency_bonus parse now a = 0%Z \/ recency_bonus parse now a = 5%Z.
Proof.
  intros parse now a. unfold recency_bonus.
  destruct (parse _) as [[c|c]|]; auto.
  destruct (now - c <? day_us)%Z; auto.
Qed.

(** The score of an article lies between 0 and 74, whatever the article and
    the clock; both bounds are reached. *)
Theorem score_bounds :
  forall (parse : string -> option DateTime) (now : Z) (a : Article),
  (0 <= _score_article_importance parse now a <= 74)%Z /\
  _score_article_importance (fun _ => None) now (mkArticle None None None None)
    = 0%Z /\
  _score_article_importance (fun _ => Some (Aware now)) now loud_article = 74%Z.
Proof.
  intros parse now a. split; [|split].
  - unfold _score_article_importance. rewrite !sum_if_in_hits.
    pose proof (hits_bounds major_companies (article_text a)) as H1.
    pose proof (hits_bounds impact_words (article_text a)) as H2.
    pose proof (hits_bounds urgent_words (article_text a)) as H3.
    simpl length in H1, H2, H3.
    destruct (recency_bonus_range parse now a) as [H|H]; rewrite H; lia.
  - reflexivity.
  - unfold _score_article_importance, recency_bonus.
    cbn [get_or a_created loud_article].
    replace (now - now <? day_us)%Z with true
      by (symmetry; apply Z.ltb_lt; unfold day_us; lia).
    vm_compute. reflexivity.
Qed.

(** The recency bonus only fades: an article that has it at some instant has
    it at every earlier one, and an article stamped later than the clock
    reading has it. *)
Theorem recency_bonus_fades :
  forall (parse : string -> option DateTime) (a : Article) (now later : Z),
  (now <= later)%Z ->
  (recency_bonus parse later a <= recency_bonus parse now a)%Z /\
  (forall c, parse (replace_Z (get_or (a_created a) "")) = Some (Aware c) ->
     (later <= c)%Z ->
     recency_bonus parse now a = 5%Z /\ recency_bonus parse later a = 5%Z).
Proof.
  intros parse a now later Hle. unfold recency_bonus. split.
  - destruct (parse _) as [[c|c]|]; try lia.
    destruct (later - c <? day_us)%Z eqn:E1; destruct (now - c <? day_us)%Z eqn:E2;
      lia.
  - intros c Hc Hfut. rewrite Hc. unfold day_us.
    replace (now - c <? 86400000000)%Z with true by (symmetry; apply Z.ltb_lt; lia).
    replace (later - c <? 86400000000)%Z with true by (symmetry; apply Z.ltb_lt; lia).
    auto.
Qed.

Lemma recency_bonus_fades_witness :
  (recency_bonus (fun _ => Some (Aware 0)) 90000000000 apple_article
   <= recency_bonus (fun _ => Some (Aware 0)) 1000 apple_article)%Z.
Proof.
  apply (recency_bonus_fades (fun _ => Some (Aware 0)) apple_article
           1000 90000000000).
  lia.
Defined.

(** ** Extractor: order, selection and limits *)

Lemma set_fresh : forall (V : Type) (d : dict V) k v,
  ~ In k (keys d) -> set d k v = d ++ [(k, v)].
Proof.
  induction d as [|[k0 v0] d IH]; intros k v H; simpl; [reflexivity|].
  destruct (String.eqb k k0) eqn:E.
  - apply String.eqb_eq in E. subst. exfalso. apply H. simpl. auto.
  - f_equal. apply IH. intros Hin. apply H. simpl. auto.
Qed.

Lemma keys_app : forall (V : Type) (d1 d2 : dict V),
  keys (d1 ++ d2) = keys d1 ++ keys d2.
Proof. intros. unfold keys. apply map_app. Qed.

Lemma extract_from_keys : forall parse clock limit themes n acc,
  NoDup (keys acc ++ keys themes) ->
  keys (extract_from parse clock n themes limit acc) =
  keys acc ++ keys (filter has_articles themes).
Proof.
  intros parse clock limit themes.
  induction themes as [|[k arts] rest IH]; intros n acc Hnd.
  - simpl. now rewrite app_nil_r.
  - cbn [keys map fst] in Hnd. fold (keys rest) in Hnd.
    pose proof (NoDup_remove_1 _ _ _ Hnd) as Hnd1.
    pose proof (NoDup_remove_2 _ _ _ Hnd) as Hnot.
    cbn [extract_from filter]. destruct arts as [|a l].
    + cbn [has_articles snd]. now apply IH.
    + cbn [has_articles snd]. rewrite IH.
      * rewrite set_fresh by (intros H; apply Hnot; apply in_or_app; auto).
        rewrite keys_app. cbn [keys map fst]. now rewrite <- app_assoc.
      * rewrite set_fresh by (intros H; apply Hnot; apply in_or_app; auto).
        rewrite keys_app. cbn [keys map fst]. rewrite <- app_assoc. exact Hnd.
Qed.

Lemma extract_keys : forall parse clock themes K,
  wf themes ->
  keys (extract_key_stories parse clock themes K) =
  keys (filter has_articles themes).
Proof.
  intros parse clock themes K Hwf.
  unfold extract_key_stories. now rewrite extract_from_keys.
Qed.

Lemma extract_length : forall parse clock themes K,
  wf themes ->
  length (extract_key_stories parse clock themes K) = non_empty_count themes.
Proof.
  intros parse clock themes K Hwf.
  unfold non_empty_count. fold has_articles.
  rewrite <- (length_map fst (extract_key_stories parse clock themes K)).
  fold (keys (extract_key_stories parse clock themes K)).
  rewrite (extract_keys parse clock themes K Hwf).
  unfold keys. apply length_map.
Qed.

(** The extractor keeps the order of the themes: its result has the themes
    with a non-empty bucket, in the order of the input, and nothing else. *)
Theorem extractor_keeps_theme_order :
  forall (parse : string -> option DateTime) (clock : Clock)
         (themes : Themes) (K : Z),
  wf themes ->
  keys (extract_key_stories parse clock themes K) =
    keys (filter has_articles themes) /\
  length (extract_key_stories parse clock themes K) = non_empty_count themes.
Proof.
  intros parse clock themes K Hwf. split.
  - now apply extract_keys.
  - now apply extract_length.
Qed.

Lemma sample_themes_wf : wf sample_themes.
Proof.
  unfold wf; simpl.
  repeat (constructor; [simpl; intros H; repeat destruct H as [H|H]; try discriminate H; exact H|]).
  constructor.
Qed.

Lemma extractor_keeps_theme_order_witness :
  keys (extract_key_stories (fun _ => None) (fun _ => 0%Z) sample_themes 2)
  = ["earnings"; "other"].
Proof.
  rewrite (proj1 (extractor_keeps_theme_order (fun _ => None) (fun _ => 0%Z)
                    sample_themes 2 sample_themes_wf)).
  reflexivity.
Defined.

Lemma slice_to_firstn : forall (A : Type) (limit : Z) (l : list A),
  exists m, slice_to limit l = firstn m l.
Proof.
  intros A limit l. unfold slice_to. destruct (limit <? 0)%Z; eauto.
Qed.

(** Whatever the limit, the stories of a theme are taken from its bucket:
    together with the articles left out they are the bucket, each article as
    often as it is there. *)
Theorem extractor_selects_from_bucket :
  forall (parse : string -> option DateTime) (clock : Clock)
         (themes : Themes) (K : Z) (t : string) (stories : list Article),
  wf themes ->
  get (extract_key_stories parse clock themes K) t = Some stories ->
  exists bucket dropped,
    get themes t = Some bucket /\ bucket <> [] /\
    Permutation (stories ++ dropped) bucket.
Proof.
  intros parse clock themes K t stories Hwf Hget.
  unfold extract_key_stories in Hget.
  rewrite (extract_from_get parse clock K themes 0 [] t Hwf) in Hget.
  destruct (get themes t) as [[|a l]|]; try discriminate.
  unfold top_stories in Hget.
  remember (sort_desc score_lt
              (score_articles parse clock (0 + calls_before themes t) (a :: l)))
    as sorted eqn:Hs.
  destruct (slice_to_firstn _ K sorted) as [m Hm]. rewrite Hm in Hget.
  injection Hget as <-.
  exists (a :: l), (map fst (skipn m sorted)).
  split; [reflexivity|]. split; [discriminate|].
  rewrite <- map_app, firstn_skipn, Hs.
  apply Permutation_trans
    with (map fst (score_articles parse clock (0 + calls_before themes t) (a :: l))).
  - apply Permutation_map, sort_desc_perm.
  - now rewrite score_articles_fst.
Qed.

Lemma extractor_selects_from_bucket_witness :
  exists bucket dropped,
    get sample_themes "earnings" = Some bucket /\ bucket <> [] /\
    Permutation
      ([mkArticle (Some "Record profit") None None None;
        mkArticle (Some "Historic revenue") None None None] ++ dropped)
      bucket.
Proof.
  apply (extractor_selects_from_bucket (fun _ => None) (fun _ => 0%Z)
           sample_themes 2 "earnings" _ sample_themes_wf).
  reflexivity.
Defined.

Lemma length_score_articles : forall parse clock articles n,
  length (score_articles parse clock n articles) = length articles.
Proof.
  induction articles as [|a r IH]; intros n; simpl; [reflexivity | now rewrite IH].
Qed.

(** The limit at its edges, for a theme with a non-empty bucket: a limit of
    at least the size of the bucket keeps every article; the limit 0 gives
    an entry with no story; a negative limit drops that many stories from
    the end of the ranking instead of keeping none. *)
Theorem extractor_limit_edges :
  forall (parse : string -> option DateTime) (clock : Clock)
         (themes : Themes) (K : Z) (t : string) (bucket : list Article),
  wf themes -> get themes t = Some bucket -> bucket <> [] ->
  exists stories,
    get (extract_key_stories parse clock themes K) t = Some stories /\
    ((Z.of_nat (length bucket) <= K)%Z -> Permutation stories bucket) /\
    (K = 0%Z -> stories = []) /\
    ((K < 0)%Z -> length stories = length bucket - Z.to_nat (- K)).
Proof.
  intros parse clock themes K t bucket Hwf Hget Hne.
  unfold extract_key_stories.
  rewrite (extract_from_get parse clock K themes 0 [] t Hwf), Hget.
  destruct bucket as [|a l]; [contradiction|].
  set (scored := score_articles parse clock (0 + calls_before themes t) (a :: l)).
  assert (Hlen : length (sort_desc score_lt scored) = length (a :: l)).
  { rewrite (Permutation_length (sort_desc_perm _ score_lt scored)).
    apply length_score_articles. }
  eexists. split; [reflexivity|]. unfold top_stories, slice_to.
  split; [|split].
  - intros Hk. destruct (K <? 0)%Z eqn:E; [apply Z.ltb_lt in E; lia|].
    rewrite firstn_all2 by (rewrite Hlen; lia).
    rewrite <- (score_articles_fst parse clock (a :: l) (0 + calls_before themes t)).
    apply Permutation_map. apply sort_desc_perm.
  - intros Hk. subst K. reflexivity.
  - intros Hk. apply Z.ltb_lt in Hk. rewrite Hk.
    rewrite length_map, length_firstn, Hlen. lia.
Qed.

Lemma extractor_limit_edges_witness :
  exists stories,
    get (extract_key_stories (fun _ => None) (fun _ => 0%Z) sample_themes (-1))
        "earnings" = Some stories /\
    length stories = 2.
Proof.
  destruct (extractor_limit_edges (fun _ => None) (fun _ => 0%Z) sample_themes
              (-1) "earnings" _ sample_themes_wf eq_refl)
    as [stories [Hget [_ [_ Hneg]]]].
  - discriminate.
  - exists stories. split; [exact Hget|]. rewrite Hneg by lia. reflexivity.
Defined.

(** ** Number of themes *)

Lemma categorize_wf : forall articles, wf (categorize_news_themes articles).
Proof.
  intros articles. unfold wf. rewrite categorize_buckets.
  rewrite (keys_map_keys _ (fun k => filter (carries k) articles)).
  apply theme_keys_nodup.
Qed.

Lemma non_empty_count_range : forall articles : list Article,
  non_empty_count (categorize_news_themes articles) <= 10 /\
  (articles <> [] -> 1 <= non_empty_count (categorize_news_themes articles)).
Proof.
  intros articles. split.
  - unfold non_empty_count.
    etransitivity; [apply filter_length_le|].
    rewrite categorize_buckets, length_map. apply Nat.le_refl.
  - intros Hne. destruct articles as [|a rest]; [contradiction|].
    destruct (article_in_some_bucket a) as [k [Hk Hc]].
    unfold non_empty_count. rewrite categorize_buckets.
    assert (Hin : In (k, filter (carries k) (a :: rest))
                    (filter (fun kv : string * list Article =>
                               match snd kv with [] => false | _ :: _ => true end)
                       (map (fun k => (k, filter (carries k) (a :: rest)))
                            theme_keys))).
    { apply filter_In. split.
      - apply (in_map (fun k => (k, filter (carries k) (a :: rest)))). exact Hk.
      - cbn [snd filter]. now rewrite Hc. }
    destruct (filter _ (map _ theme_keys)); [contradiction | simpl; lia].
Qed.

(** The number of themes [main] stores with a report: at most ten, at least
    one as soon as there is an article, and the number of themes the
    extractor passes on to the renderer, whatever the limit. *)
Theorem themes_count_bounds :
  forall (articles : list Article),
  non_empty_count (categorize_news_themes articles) <= 10 /\
  (articles <> [] -> 1 <= non_empty_count (categorize_news_themes articles)) /\
  (forall parse clock K,
     length (extract_key_stories parse clock (categorize_news_themes articles) K)
     = non_empty_count (categorize_news_themes articles)).
Proof.
  intros articles. split; [|split].
  - apply non_empty_count_range.
  - apply non_empty_count_range.
  - intros parse clock K.
    apply (extract_length parse clock _ K (categorize_wf articles)).
Qed.

(** ** News summary: teaser, headings and the empty case *)

Lemma length_append : forall a b : string,
  String.length (a ++ b) = String.length a + String.length b.
Proof.
  induction a as [|c a IH]; intros b; simpl; [reflexivity | now rewrite IH].
Qed.

Lemma length_take : forall n s,
  String.length (take n s) = Nat.min n (String.length s).
Proof.
  induction n as [|n IH]; intros s; [reflexivity|].
  destruct s as [|c s]; simpl; [reflexivity | now rewrite IH].
Qed.

Lemma take_is_prefix : forall n s, exists post, s = (take n s ++ post)%string.
Proof.
  induction n as [|n IH]; intros s.
  - exists s. reflexivity.
  - destruct s as [|c s]; [exists ""; reflexivity|].
    destruct (IH s) as [post H]. exists post. simpl. now rewrite <- H.
Qed.

(** The teaser shown for an article never has more than 203 characters: a
    teaser of at most 200 characters is shown as it is, a longer one is cut
    to its first 200 characters followed by three dots. *)
Theorem teaser_is_bounded : forall a : Article,
  let teaser := get_or (a_teaser a) "" in
  String.length (entry_teaser a) <= 203 /\
  (String.length teaser <= 200 -> entry_teaser a = teaser) /\
  (200 < String.length teaser ->
     entry_teaser a = (take 200 teaser ++ "...")%string /\
     String.length (entry_teaser a) = 203 /\
     String.prefix (take 200 teaser) teaser = true).
Proof.
  intros a teaser. unfold entry_teaser. fold teaser.
  destruct (200 <? String.length teaser) eqn:E.
  - apply Nat.ltb_lt in E.
    assert (Hl : String.length (take 200 teaser ++ "...") = 203).
    { rewrite length_append, length_take. simpl String.length. lia. }
    split; [lia|]. split; [lia|]. intros _.
    split; [reflexivity|]. split; [exact Hl|].
    apply prefix_iff_app. apply take_is_prefix.
  - apply Nat.ltb_ge in E. split; [lia|]. split; [reflexivity | lia].
Qed.

Lemma theme_lines_nil_iff : forall theme articles,
  theme_lines theme articles = [] <-> articles = [].
Proof.
  intros theme [|a l]; simpl; split; try reflexivity; discriminate.
Qed.

Lemma forall_set : forall (V : Type) (Q : V -> Prop) (d : dict V) k v,
  Forall (fun kv => Q (snd kv)) d -> Q v ->
  Forall (fun kv => Q (snd kv)) (set d k v).
Proof.
  induction d as [|[k0 v0] d IH]; intros k v Hd Hv; simpl.
  - constructor; [exact Hv | constructor].
  - inversion Hd; subst. destruct (String.eqb k k0); constructor; auto.
Qed.

Lemma extract_from_forall : forall (Q : list Article -> Prop) parse clock limit
  themes n acc,
  (forall scored, Q (top_stories limit scored)) ->
  Forall (fun kv => Q (snd kv)) acc ->
  Forall (fun kv => Q (snd kv)) (extract_from parse clock n themes limit acc).
Proof.
  intros Q parse clock limit themes.
  induction themes as [|[k arts] rest IH]; intros n acc HQ Hacc; [exact Hacc|].
  cbn [extract_from]. destruct arts as [|a l]; [now apply IH|].
  apply IH; [exact HQ|]. now apply forall_set.
Qed.

(** The news summary has no line exactly when no theme has an article, and
    it is then the empty text; this is what a limit of 0 leads to, whatever
    the buckets. *)
Theorem news_summary_empty_iff : forall key_stories : Themes,
  (news_summary_lines key_stories = [] <->
   Forall (fun kv => snd kv = []) key_stories) /\
  (Forall (fun kv => snd kv = []) key_stories ->
   _create_news_summary_with_sources key_stories = "") /\
  (forall parse clock themes,
     _create_news_summary_with_sources
       (extract_key_stories parse clock themes 0) = "").
Proof.
  intros key_stories.
  assert (Hiff : forall ks : Themes,
            news_summary_lines ks = [] <-> Forall (fun kv => snd kv = []) ks).
  { induction ks as [|[theme articles] rest IH].
    - split; [constructor | reflexivity].
    - unfold news_summary_lines in *. cbn [flat_map fst snd]. split.
      + intros H. apply app_eq_nil in H. destruct H as [H1 H2].
        constructor; [now apply theme_lines_nil_iff in H1 | now apply IH].
      + intros H. inversion H as [|? ? Hh Ht]; subst. simpl in Hh. subst.
        simpl. now apply IH. }
  assert (Hempty : forall ks : Themes,
            Forall (fun kv => snd kv = []) ks ->
            _create_news_summary_with_sources ks = "").
  { intros ks H. unfold _create_news_summary_with_sources.
    apply Hiff in H. now rewrite H. }
  split; [apply Hiff|]. split; [apply Hempty|].
  intros parse clock themes. apply Hempty. unfold extract_key_stories.
  apply (extract_from_forall (fun l => l = [])); [|constructor].
  intros scored. reflexivity.
Qed.

Lemma upper_lower_char : forall c, upper_char (lower_char c) = upper_char c.
Proof.
  intros [b0 b1 b2 b3 b4 b5 b6 b7].
  destruct b0, b1, b2, b3, b4, b5, b6, b7; reflexivity.
Qed.

Lemma upper_upper_char : forall c, upper_char (upper_char c) = upper_char c.
Proof.
  intros [b0 b1 b2 b3 b4 b5 b6 b7].
  destruct b0, b1, b2, b3, b4, b5, b6, b7; reflexivity.
Qed.

Lemma upper_title_from : forall s b, upper (title_from b s) = upper s.
Proof.
  induction s as [|c s IH]; intros b; simpl; [reflexivity|].
  rewrite IH. now destruct b; rewrite ?upper_lower_char, ?upper_upper_char.
Qed.

(** The heading of a theme: each of the ten themes of the classifier has a
    display name, shown in upper case; any other key is shown as the key
    itself in upper case; no heading can be taken for the numbered first
    line of an entry. *)
Theorem theme_heading_upper : forall theme : string,
  (In theme theme_keys ->
     exists name, get theme_names theme = Some name /\
                  theme_heading theme = (newline ++ upper name ++ ":")%string) /\
  (get theme_names theme = None ->
     theme_heading theme = (newline ++ upper theme ++ ":")%string) /\
  is_entry_head (theme_heading theme) = false.
Proof.
  intros theme. split; [|split].
  - intros Hin. unfold theme_keys in Hin; simpl in Hin.
    repeat destruct Hin as [Hin|Hin]; try contradiction; subst theme;
      eexists; split; reflexivity.
  - intros H. unfold theme_heading. rewrite H. unfold PyStr.title.
    now rewrite upper_title_from.
  - reflexivity.
Qed.

(** ** Aggregator: order of the snapshot *)

Ltac distinct_strings :=
  repeat (constructor;
          [simpl; let H := fresh in
                  intros H; repeat destruct H as [H|H]; try discriminate H; exact H|]);
  constructor.

Lemma fetch_group_recorded : forall (X V : Type) svc s e (entry : X -> Perf -> V)
  items data,
  NoDup (keys data ++ keys items) ->
  result (fetch_group svc s e entry items data) =
  data ++ recorded svc s e entry items.
Proof.
  intros X V svc s e entry items.
  induction items as [|[k x] rest IH]; intros data Hnd.
  - simpl. now rewrite app_nil_r.
  - cbn [keys map fst] in Hnd. fold (keys rest) in Hnd.
    pose proof (NoDup_remove_1 _ _ _ Hnd) as Hnd1.
    pose proof (NoDup_remove_2 _ _ _ Hnd) as Hnot.
    cbn [fetch_group]. rewrite result_bind. unfold fetch_history.
    rewrite result_bind. cbn [ret result fst recorded flat_map snd].
    destruct (performance (yf_history svc k s (e + 1))) as [p|].
    + rewrite IH.
      * rewrite set_fresh by (intros H; apply Hnot; apply in_or_app; auto).
        now rewrite <- app_assoc.
      * rewrite set_fresh by (intros H; apply Hnot; apply in_or_app; auto).
        rewrite keys_app. cbn [keys map fst]. rewrite <- app_assoc. exact Hnd.
    + now apply IH.
Qed.

Lemma keys_recorded : forall (X V : Type) svc s e (entry : X -> Perf -> V) items,
  keys (recorded svc s e entry items) = filter (succeeded svc s e) (keys items).
Proof.
  intros X V svc s e entry items.
  induction items as [|[k x] rest IH]; [reflexivity|].
  cbn [recorded flat_map keys map fst snd filter]. unfold succeeded at 1.
  destruct (performance (yf_history svc k s (e + 1))); simpl.
  - f_equal. exact IH.
  - exact IH.
Qed.

(** With a configuration whose tickers are distinct and do not use the two
    group keys, the snapshot lists the indices that succeeded in the
    configured order, then the key [sectors], then the key [stocks]; the two
    group dictionaries list their instruments in the configured order too;
    an index entry has the configured name and the first and last close
    rounded. *)
Theorem snapshot_keeps_configured_order :
  forall (cfg : Config) (svc : Services) (s e : Z),
  wf (market_indices cfg) ->
  ~ In "sectors" (keys (market_indices cfg)) ->
  ~ In "stocks" (keys (market_indices cfg)) ->
  wf (sector_etfs cfg) ->
  NoDup (major_stocks cfg ++ sea_stocks cfg) ->
  let md := result (get_market_data_by_range cfg svc s e) in
  keys md =
    filter (succeeded svc s e) (keys (market_indices cfg)) ++ ["sectors"; "stocks"] /\
  (exists sectors stocks,
     get md "sectors" = Some (MSectors sectors) /\
     get md "stocks" = Some (MStocks stocks) /\
     keys sectors = filter (succeeded svc s e) (keys (sector_etfs cfg)) /\
     keys stocks =
       filter (succeeded svc s e) (major_stocks cfg ++ sea_stocks cfg)) /\
  (forall t name closes,
     In (t, name) (market_indices cfg) ->
     yf_history svc t s (e + 1) = History closes -> 2 <= length closes ->
     get md t =
     Some (MIndex (mkIndexEntry name
                     (round2 (last closes 0%float))
                     (round2 (change_pct (hd 0%float closes) (last closes 0%float)))
                     (round2 (hd 0%float closes))))).
Proof.
  intros cfg svc s e Hwf Hsec Hsto Hwfs Hnds md. subst md.
  assert (Hidx : index_data cfg svc s e =
                 recorded svc s e index_value (market_indices cfg)).
  { unfold index_data. now rewrite fetch_group_recorded. }
  assert (Hsd : sector_data cfg svc s e =
                recorded svc s e sector_value (sector_etfs cfg)).
  { unfold sector_data. now rewrite fetch_group_recorded. }
  assert (Hkd : stock_data cfg svc s e =
                recorded svc s e stock_value
                  (map (fun t => (t, tt)) (major_stocks cfg ++ sea_stocks cfg))).
  { unfold stock_data. rewrite fetch_group_recorded; [reflexivity|].
    simpl. now rewrite keys_unit_items. }
  assert (Hin : forall k, In k (keys (index_data cfg svc s e)) ->
                          In k (keys (market_indices cfg))).
  { intros k Hk. rewrite Hidx, keys_recorded in Hk. now apply filter_In in Hk. }
  split; [|split].
  - rewrite market_data_shape.
    rewrite (set_fresh _ (index_data cfg svc s e)) by (intros H; apply Hsec, Hin, H).
    rewrite set_fresh.
    + rewrite !keys_app. cbn [keys map fst]. rewrite <- app_assoc.
      fold (keys (index_data cfg svc s e)). now rewrite Hidx, keys_recorded.
    + rewrite keys_app. cbn [keys map fst]. intros H. apply in_app_or in H.
      destruct H as [H|[H|[]]]; [apply Hsto, Hin, H | discriminate H].
  - exists (sector_data cfg svc s e), (stock_data cfg svc s e).
    split; [apply get_sectors_md|]. split; [apply get_stocks_md|].
    rewrite Hsd, Hkd, !keys_recorded. now rewrite keys_unit_items.
  - intros t name closes Hcfg Hh Hlen.
    assert (t <> "sectors").
    { intros ->. apply Hsec. change (In (fst ("sectors", name)) (keys (market_indices cfg))).
      now apply in_map. }
    assert (t <> "stocks").
    { intros ->. apply Hsto. change (In (fst ("stocks", name)) (keys (market_indices cfg))).
      now apply in_map. }
    rewrite get_index_md by assumption. unfold index_data.
    rewrite fetch_group_get, Hh, performance_history.
    apply Nat.leb_le in Hlen. rewrite Hlen.
    assert (Hb : last_binding (market_indices cfg) t = Some name).
    { clear - Hwf Hcfg. induction (market_indices cfg) as [|[k x] rest IH];
        [contradiction|].
      unfold wf in Hwf; simpl in Hwf. inversion Hwf as [|? ? Hnot Hnd]; subst.
      cbn [last_binding]. destruct Hcfg as [Heq|Hcfg].
      - inversion Heq; subst. rewrite String.eqb_refl.
        destruct (last_binding rest t) eqn:E; [|reflexivity].
        exfalso. apply Hnot. apply last_binding_in. eauto.
      - now rewrite (IH Hnd Hcfg). }
    rewrite Hb. reflexivity.
Qed.

Lemma snapshot_keeps_configured_order_witness :
  keys (result (get_market_data_by_range _setup_market_config dow_fails 0 7))
  = filter (succeeded dow_fails 0 7) (keys (market_indices _setup_market_config))
    ++ ["sectors"; "stocks"].
Proof.
  refine (proj1 (snapshot_keeps_configured_order _setup_market_config dow_fails
                   0 7 _ _ _ _ _)).
  - unfold wf; simpl. distinct_strings.
  - simpl. intros H. repeat destruct H as [H|H]; try discriminate H; exact H.
  - simpl. intros H. repeat destruct H as [H|H]; try discriminate H; exact H.
  - unfold wf; simpl. distinct_strings.
  - simpl. distinct_strings.
Defined.

(** ** Performance summary *)

Lemma flat_map_set_ignored : forall (V B : Type) (g : string * V -> list B)
  (d : dict V) k v,
  (forall v', g (k, v') = []) ->
  flat_map g (set d k v) = flat_map g d.
Proof.
  intros V B g d k v Hg; induction d as [|[k0 v0] d IH]; simpl.
  - now rewrite Hg, app_nil_r.
  - destruct (String.eqb k k0) eqn:E; simpl.
    + apply String.eqb_eq in E. subst. now rewrite !Hg.
    + now rewrite IH.
Qed.

Lemma length_set_le : forall (V : Type) (d : dict V) k v,
  length (set d k v) <= S (length d).
Proof.
  induction d as [|[k0 v0] d IH]; intros k v; simpl; [lia|].
  destruct (String.eqb k k0); simpl; [lia|]. specialize (IH k v). lia.
Qed.

Lemma fetch_group_length : forall (X V : Type) svc s e (entry : X -> Perf -> V)
  items data,
  length (result (fetch_group svc s e entry items data))
  <= length data + length items.
Proof.
  intros X V svc s e entry items.
  induction items as [|[k x] rest IH]; intros data; [simpl; lia|].
  cbn [fetch_group]. rewrite result_bind. unfold fetch_history.
  rewrite result_bind. cbn [ret result fst length].
  destruct (performance (yf_history svc k s (e + 1))) as [p|].
  - etransitivity; [apply IH|]. pose proof (length_set_le _ data k (entry x p)). lia.
  - etransitivity; [apply IH|]. lia.
Qed.

Lemma length_flat_map_le : forall (A B : Type) (g : A -> list B) l,
  (forall x, length (g x) <= 1) -> length (flat_map g l) <= length l.
Proof.
  intros A B g l Hg; induction l as [|x l IH]; simpl; [lia|].
  rewrite length_app. specialize (Hg x). lia.
Qed.

Lemma summary_lines_shape : forall svc (md : MarketData) s e sectors stocks,
  get md "sectors" = Some (MSectors sectors) ->
  get md "stocks" = Some (MStocks stocks) ->
  performance_summary_lines svc md s e =
  ("MARKET PERFORMANCE (" ++ date_range_text svc s e ++ "):")%string ::
  flat_map (fun kv =>
              if in_group_keys (fst kv) then []
              else match snd kv with
                   | MIndex e0 => [bullet_line svc (ie_name e0) (ie_change_pct e0)]
                   | _ => []
                   end) md
  ++ (newline ++ "SECTOR PERFORMANCE (" ++ date_range_text svc s e ++ "):")%string ::
     map (fun kv => bullet_line svc (se_name (snd kv)) (se_change_pct (snd kv)))
         (sort_desc sector_lt sectors)
  ++ (newline ++ "NOTABLE STOCK MOVEMENTS (" ++ date_range_text svc s e ++ "):")%string ::
     map (fun kv => bullet_line svc (fst kv) (sk_change_pct (snd kv)))
         (firstn 10 (sort_desc stock_lt stocks)).
Proof.
  intros svc md s e sectors stocks H1 H2.
  unfold performance_summary_lines. rewrite H1, H2.
  cbn [app]. now rewrite <- !app_assoc.
Qed.

(** The performance summary of a snapshot of the aggregator always has its
    three headings, in the order indices, sectors, stocks: at most one line
    per configured index under the first, one line per recorded sector under
    the second, and under the third one line per recorded stock but never
    more than ten. *)
Theorem performance_summary_sections :
  forall (cfg : Config) (svc : Services) (s e : Z),
  let md := result (get_market_data_by_range cfg svc s e) in
  let range := date_range_text svc s e in
  exists index_lines sector_lines stock_lines,
    performance_summary_lines svc md s e =
      ("MARKET PERFORMANCE (" ++ range ++ "):")%string :: index_lines
      ++ (newline ++ "SECTOR PERFORMANCE (" ++ range ++ "):")%string :: sector_lines
      ++ (newline ++ "NOTABLE STOCK MOVEMENTS (" ++ range ++ "):")%string :: stock_lines /\
    length index_lines <= length (market_indices cfg) /\
    length sector_lines = length (sector_data cfg svc s e) /\
    length stock_lines = Nat.min 10 (length (stock_data cfg svc s e)) /\
    length stock_lines <= 10.
Proof.
  intros cfg svc s e md range. subst md range.
  rewrite (summary_lines_shape svc _ s e _ _
             (get_sectors_md cfg svc s e) (get_stocks_md cfg svc s e)).
  eexists _, _, _. split; [reflexivity|].
  split.
  { rewrite market_data_shape.
    rewrite (flat_map_set_ignored _ _ _ _ "stocks") by (intros; reflexivity).
    rewrite (flat_map_set_ignored _ _ _ _ "sectors") by (intros; reflexivity).
    etransitivity.
    - apply length_flat_map_le. intros [k v]. cbn [fst snd].
      destruct (in_group_keys k); [simpl; lia|]. destruct v; simpl; lia.
    - unfold index_data.
      pose proof (fetch_group_length _ _ svc s e index_value
                    (market_indices cfg) []) as H.
      simpl in H. exact H. }
  split.
  { rewrite length_map. apply Permutation_length, sort_desc_perm. }
  assert (Hl : length (sort_desc stock_lt (stock_data cfg svc s e))
               = length (stock_data cfg svc s e))
    by apply Permutation_length, sort_desc_perm.
  split.
  - now rewrite length_map, length_firstn, Hl.
  - rewrite length_map, length_firstn. apply Nat.le_min_l.
Qed.

(** ** The pipeline: order and number of calls *)

Lemma chat_calls_app : forall a b,
  chat_calls (a ++ b) = chat_calls a + chat_calls b.
Proof. intros. unfold chat_calls. now rewrite filter_app, length_app. Qed.

Lemma no_fetch_app : forall a b,
  filter is_fetch a = [] -> filter is_fetch b = [] -> filter is_fetch (a ++ b) = [].
Proof. intros a b Ha Hb. now rewrite filter_app, Ha, Hb. Qed.

Lemma generate_effects : forall svc md ks s e,
  chat_calls (trace (generate_market_report svc md ks s e)) = 1 /\
  filter is_fetch (trace (generate_market_report svc md ks s e)) = [].
Proof.
  intros svc md ks s e. unfold generate_market_report.
  generalize (report_request svc md ks s e). intros req.
  rewrite trace_bind. cbn [emit trace snd result fst].
  destruct (openai_chat svc req); split; reflexivity.
Qed.

Lemma translate_effects : forall svc content target,
  chat_calls (trace (translate_content svc content target)) <= 1 /\
  filter is_fetch (trace (translate_content svc content target)) = [].
Proof.
  intros svc content target. unfold translate_content.
  destruct (String.eqb target "English");
    [split; [unfold chat_calls; simpl; lia | reflexivity]|].
  destruct (get language_map target) as [language|];
    [|split; [unfold chat_calls; simpl; lia | reflexivity]].
  generalize (translation_request language content). intros req.
  rewrite trace_bind. cbn [emit trace snd result fst].
  destruct (openai_chat svc req); split;
    try reflexivity; unfold chat_calls; simpl; lia.
Qed.

Lemma news_effects : forall key svc s e,
  exists t,
    trace (get_articles_by_date_range key svc s e) =
      EvNews (mkNewsRequest "/v2/news" 200 "full" s e key) :: t /\
    chat_calls t = 0 /\ filter is_fetch t = [].
Proof.
  intros key svc s e. unfold get_articles_by_date_range, _make_benzinga_request.
  rewrite trace_bind. cbn [emit trace snd result fst].
  destruct (benzinga svc _); eexists; split; try reflexivity; split; reflexivity.
Qed.

(** One run of [main] with valid dates.  Without the button nothing is
    called.  With it, the price requests for all configured instruments come
    first, then the one news request; after that no data provider is asked
    again and the language service is called at most twice, at most once
    when the language is English. *)
Theorem pipeline_effect_order :
  forall (gen : Generator) (svc : Services) (inp : Inputs),
  (in_start_date inp < in_end_date inp)%Z ->
  (in_generate_button inp = false -> main gen svc inp = (NotRequested, [])) /\
  (in_generate_button inp = true ->
   exists rest,
     trace (main gen svc inp) =
       map (fun t => EvHistory t (in_start_date inp) (in_end_date inp + 1))
           (keys (market_indices (config gen)) ++ keys (sector_etfs (config gen))
            ++ major_stocks (config gen) ++ sea_stocks (config gen))
       ++ EvNews (mkNewsRequest "/v2/news" 200 "full" (in_start_date inp)
                    (in_end_date inp) (benzinga_key gen)) :: rest /\
     filter is_fetch rest = [] /\
     chat_calls rest <= 2 /\
     (in_language inp = "English" -> chat_calls rest <= 1)).
Proof.
  intros gen svc inp Hlt. rewrite (main_good_range gen svc inp Hlt). split.
  - intros Hb. now rewrite Hb.
  - intros Hb. rewrite Hb. unfold pipeline.
    rewrite trace_bind, market_data_trace, trace_bind.
    destruct (news_effects (benzinga_key gen) svc (in_start_date inp)
                (in_end_date inp)) as [t [Ht [Hc Hf]]].
    rewrite Ht.
    set (md := result (get_market_data_by_range _ _ _ _)).
    destruct (result (get_articles_by_date_range _ _ _ _)) as [|a l].
    + eexists. split; [cbn [app]; reflexivity|].
      rewrite trace_bind. cbn [emit trace snd result fst ret app].
      split; [now apply no_fetch_app|].
      rewrite chat_calls_app, Hc. unfold chat_calls; simpl. split; intros; lia.
    + eexists. split; [cbn [app]; reflexivity|].
      set (themes := categorize_news_themes (a :: l)).
      set (stories := extract_key_stories _ _ themes _).
      rewrite trace_bind, trace_bind.
      destruct (generate_effects svc md stories (in_start_date inp)
                  (in_end_date inp)) as [Hgc Hgf].
      set (report := result (generate_market_report _ _ _ _ _)).
      cbn [ret trace snd]. rewrite app_nil_r.
      assert (Htr : chat_calls
                      (trace (if negb (String.eqb (in_language inp) "English")
                              then translate_content svc report (in_language inp)
                              else ret report)) <= 1 /\
                    filter is_fetch
                      (trace (if negb (String.eqb (in_language inp) "English")
                              then translate_content svc report (in_language inp)
                              else ret report)) = [] /\
                    (in_language inp = "English" ->
                     chat_calls
                       (trace (if negb (String.eqb (in_language inp) "English")
                               then translate_content svc report (in_language inp)
                               else ret report)) = 0)).
      { destruct (String.eqb (in_language inp) "English") eqn:E; cbn [negb].
        - split; [unfold chat_calls; simpl; lia|]. split; reflexivity.
        - destruct (translate_effects svc report (in_language inp)) as [H1 H2].
          split; [exact H1|]. split; [exact H2|].
          intros HE. apply String.eqb_neq in E. contradiction. }
      destruct Htr as [Htc [Htf Hte]].
      split; [repeat apply no_fetch_app; assumption|].
      rewrite !chat_calls_app, Hc, Hgc.
      split; [lia|]. intros HE. rewrite (Hte HE). lia.
Qed.

Lemma pipeline_effect_order_witness :
  main sample_generator quiet_services (mkInputs 0 7 "English" 3 false)
  = (NotRequested, []).
Proof.
  assert (H : (in_start_date (mkInputs 0 7 "English" 3 false)
               < in_end_date (mkInputs 0 7 "English" 3 false))%Z)
    by (simpl; lia).
  apply (proj1 (pipeline_effect_order sample_generator quiet_services
                  (mkInputs 0 7 "English" 3 false) H)).
  reflexivity.
Defined.

(** ** Keys and the generator *)

Lemma truthy_iff : forall s, truthy s = true <-> s <> "".
Proof.
  intros s. unfold truthy. rewrite negb_true_iff. apply String.eqb_neq.
Qed.

Lemma truthy_key_available : forall ks name,
  truthy (_get_api_key ks name) = true <-> key_available ks name.
Proof.
  intros ks name. unfold _get_api_key, key_available.
  destruct (getenv ks name) as [v|] eqn:Eenv.
  - destruct (truthy v) eqn:Ev.
    + rewrite Ev. apply truthy_iff in Ev. split; [|reflexivity].
      intros _. left. eauto.
    + assert (Hv : v = "").
      { unfold truthy in Ev. apply negb_false_iff in Ev.
        now apply String.eqb_eq in Ev. }
      destruct (secrets ks name) as [w|]; rewrite truthy_iff; split.
      * intros H. right. eauto.
      * intros [[v' [H1 H2]]|[w' [H1 H2]]]; [congruence|]. now inversion H1; subst.
      * intros H. contradiction.
      * intros [[v' [H1 H2]]|[w' [H1 H2]]]; [congruence | discriminate].
  - destruct (secrets ks name) as [w|]; rewrite truthy_iff; split.
    + intros H. right. eauto.
    + intros [[v' [H1 H2]]|[w' [H1 H2]]]; [discriminate|]. now inversion H1; subst.
    + intros H. contradiction.
    + intros [[v' [H1 H2]]|[w' [H1 H2]]]; discriminate.
Qed.

(** The generator is built exactly when both keys can be found, each in the
    environment or else in the secrets, an empty value counting as missing.
    It then holds a non-empty news key, the one of the environment when that
    is not empty, and the fixed market configuration; otherwise the error is
    shown and nothing is built. *)
Theorem generator_needs_both_keys : forall ks : KeyStore,
  (key_available ks "BENZINGA_API_KEY" /\ key_available ks "OPENAI_API_KEY" ->
   exists gen,
     __init__ ks = (Some gen, []) /\
     benzinga_key gen <> "" /\
     config gen = _setup_market_config /\
     (forall v, getenv ks "BENZINGA_API_KEY" = Some v -> v <> "" ->
                benzinga_key gen = v)) /\
  (~ (key_available ks "BENZINGA_API_KEY" /\ key_available ks "OPENAI_API_KEY") ->
   __init__ ks =
   (None, [EvStError "❌ API keys not found. Please check your .env file or Streamlit secrets."])).
Proof.
  intros ks. unfold __init__.
  destruct (truthy (_get_api_key ks "BENZINGA_API_KEY")) eqn:Eb;
    destruct (truthy (_get_api_key ks "OPENAI_API_KEY")) eqn:Eo; cbn [negb orb].
  - split.
    + intros _. eexists. split; [reflexivity|]. cbn [benzinga_key config].
      split; [now apply truthy_iff|]. split; [reflexivity|].
      intros v Hv Hne. unfold _get_api_key. rewrite Hv.
      apply truthy_iff in Hne. now rewrite Hne.
    + intros H. exfalso. apply H. split; now apply truthy_key_available.
  - split; [|reflexivity].
    intros [_ H]. apply truthy_key_available in H. congruence.
  - split; [|reflexivity].
    intros [H _]. apply truthy_key_available in H. congruence.
  - split; [|reflexivity].
    intros [H _]. apply truthy_key_available in H. congruence.
Qed.

(** ** The access gate *)

Lemma gate_flag : forall ks session form,
  fst (result (password_check ks session form)) = true <->
  session = Some true \/
  (login_button form = true /\ typed_password form = get_app_password ks).
Proof.
  intros ks session form. unfold password_check.
  destruct session as [[|]|]; cbn [result fst ret].
  - split; auto.
  - destruct (login_button form).
    + destruct (String.eqb (typed_password form) (get_app_password ks)) eqn:E.
      * apply String.eqb_eq in E. cbn. split; auto.
      * apply String.eqb_neq in E. cbn. split; [discriminate|].
        intros [H|[_ H]]; [discriminate | contradiction].
    + cbn. split; [discriminate|]. intros [H|[H _]]; discriminate.
  - destruct (login_button form).
    + destruct (String.eqb (typed_password form) (get_app_password ks)) eqn:E.
      * apply String.eqb_eq in E. cbn. split; auto.
      * apply String.eqb_neq in E. cbn. split; [discriminate|].
        intros [H|[_ H]]; [discriminate | contradiction].
    + cbn. split; [discriminate|]. intros [H|[H _]]; discriminate.
Qed.

(** The gate over any number of runs: the session is authenticated at the
    end exactly when it was at the start or some run had the button pressed
    with the password of the application typed; the flag, once set, is never
    taken back.  [password_check] returns to [main] only in a session that
    is already authenticated.  With no password configured anywhere, the
    text [weekly_report] opens the gate. *)
Theorem gate_opens_only_with_password :
  forall (ks : KeyStore) (session : option bool) (forms : list LoginForm),
  (login_runs ks session forms = Some true <->
   session = Some true \/
   exists form, In form forms /\ login_button form = true /\
                typed_password form = get_app_password ks) /\
  (forall form,
     snd (result (password_check ks session form)) = Proceed <->
     session = Some true) /\
  (getenv ks "APP_PASSWORD" = None -> secrets ks "APP_PASSWORD" = None ->
   password_check ks None (mkLoginForm "weekly_report" true) = ((true, Rerun), [])).
Proof.
  intros ks session forms. split; [|split].
  - revert session. induction forms as [|form rest IH]; intros session.
    + simpl. split; [auto | intros [H|[form [[] _]]]; exact H].
    + cbn [login_runs]. rewrite IH. split.
      * intros [H|[f [Hin Hf]]].
        -- assert (Hflag : fst (result (password_check ks session form)) = true)
             by congruence.
           apply gate_flag in Hflag.
           destruct Hflag as [Hs|Hgood]; [left; exact Hs|]. right. exists form.
           split; [left; reflexivity | exact Hgood].
        -- right. exists f. simpl. tauto.
      * intros [H|[f [[Heq|Hin] Hf]]].
        -- left. f_equal. apply gate_flag. auto.
        -- subst f. left. f_equal. apply gate_flag. auto.
        -- right. eauto.
  - intros form. unfold password_check.
    destruct session as [[|]|]; cbn [result fst snd ret].
    + split; auto.
    + destruct (login_button form);
        [destruct (String.eqb (typed_password form) (get_app_password ks))|];
        cbn; split; discriminate.
    + destruct (login_button form);
        [destruct (String.eqb (typed_password form) (get_app_password ks))|];
        cbn; split; discriminate.
  - intros He Hs. unfold password_check, get_app_password.
    rewrite He, Hs. reflexivity.
Qed.

(** ** The whole script *)

Lemma gate_cases : forall ks session form,
  (session = Some true /\
   password_check ks session form = ((true, Proceed), [])) \/
  (session <> Some true /\
   exists b g t,
     password_check ks session form = ((b, g), t) /\ g <> Proceed /\
     filter is_service t = []).
Proof.
  intros ks session form. unfold password_check.
  destruct session as [[|]|].
  - left. split; reflexivity.
  - right. split; [discriminate|].
    destruct (login_button form);
      [destruct (String.eqb (typed_password form) (get_app_password ks))|];
      do 3 eexists; (split; [reflexivity|]); split; try discriminate; reflexivity.
  - right. split; [discriminate|].
    destruct (login_button form);
      [destruct (String.eqb (typed_password form) (get_app_password ks))|];
      do 3 eexists; (split; [reflexivity|]); split; try discriminate; reflexivity.
Qed.

(** No data provider and no language service is ever called in a session
    that is not authenticated, nor when one of the two keys cannot be found:
    such a run ends on the login page or on the missing keys.  A run reaches
    the report part of [main] only in an authenticated session with both
    keys. *)
Theorem no_service_call_without_access :
  forall (ks : KeyStore) (session : option bool) (form : LoginForm)
         (svc : Services) (inp : Inputs),
  let run := run_script ks session form svc inp in
  (session <> Some true ->
     filter is_service (trace run) = [] /\
     exists b g, result run = (b, AtLogin g) /\ g <> Proceed) /\
  (~ (key_available ks "BENZINGA_API_KEY" /\ key_available ks "OPENAI_API_KEY") ->
     filter is_service (trace run) = [] /\
     forall b o, result run <> (b, Ran o)) /\
  (forall b o, result run = (b, Ran o) ->
     session = Some true /\
     key_available ks "BENZINGA_API_KEY" /\ key_available ks "OPENAI_API_KEY").
Proof.
  intros ks session form svc inp run. subst run. unfold run_script.
  destruct (gate_cases ks session form)
    as [[Hs Hg]|[Hs [b [g [t [Hg [Hne Ht]]]]]]].
  - rewrite Hg. cbn [bind snd fst]. unfold __init__.
    destruct (truthy (_get_api_key ks "BENZINGA_API_KEY")) eqn:Eb;
      destruct (truthy (_get_api_key ks "OPENAI_API_KEY")) eqn:Eo;
      cbn [negb orb bind emit ret].
    + destruct (main _ svc inp) as [o tm]. cbn [app result fst trace snd].
      split; [intros H; contradiction|].
      split; [intros H; exfalso; apply H; split; now apply truthy_key_available|].
      intros b' o' _. split; [exact Hs|]. split; now apply truthy_key_available.
    + cbn [app result fst trace snd].
      split; [intros H; contradiction|].
      split; [intros _; split; [reflexivity | intros b' o'; discriminate]|].
      intros b' o' H. discriminate.
    + cbn [app result fst trace snd].
      split; [intros H; contradiction|].
      split; [intros _; split; [reflexivity | intros b' o'; discriminate]|].
      intros b' o' H. discriminate.
    + cbn [app result fst trace snd].
      split; [intros H; contradiction|].
      split; [intros _; split; [reflexivity | intros b' o'; discriminate]|].
      intros b' o' H. discriminate.
  - rewrite Hg. cbn [bind snd fst].
    destruct g; [contradiction | |];
      cbn [ret result fst trace snd]; rewrite app_nil_r;
      (split; [intros _; split; [exact Ht | do 2 eexists; split;
                                            [reflexivity | discriminate]]|]);
      (split; [intros _; split; [exact Ht | intros b' o'; discriminate]|]);
      intros b' o' H; discriminate.
Qed.
